(** * ps2anim: the tower grid of [src/App.tsx], embedded and verified

    The file follows [src/App.tsx] from top to bottom: [gaussianRandom], the
    GLSL shaders of [CubeMaterial], then the React components [Cube],
    [Tower], [Towers], [PS2Text] and [App].

    Number model.  JavaScript numbers and GLSL floats are idealised: a finite
    value is a real number and arithmetic on finite values is exact (no
    rounding, no overflow, no signed zero).  Where a JavaScript built-in can
    leave the finite numbers ([Math.log], [Math.sqrt], products and sums of
    their results) the value is a [number], which carries the two infinities
    and NaN next to the reals.  Loop counters, literals and the quantities
    computed from them by [+], [-], [*] and division by a non-zero literal
    are plain reals. *)

From Stdlib Require Import Reals Lra Lia ZArith List String Bool.
From Stdlib Require Import Zfloor.
Import ListNotations.

Open Scope R_scope.

(** ** JavaScript numbers *)

Inductive number : Type :=
| Fin (r : R)
| PosInf
| NegInf
| NaN.

(** Sign of a real, used by the IEEE rules for products with an infinity. *)
Definition Rsign (r : R) : comparison :=
  match total_order_T r 0 with
  | inleft (left _) => Lt
  | inleft (right _) => Eq
  | inright _ => Gt
  end.

Definition Rltb (a b : R) : bool := if Rlt_dec a b then true else false.
Definition Rgtb (a b : R) : bool := if Rgt_dec a b then true else false.

Definition num_neg (a : number) : number :=
  match a with
  | Fin r => Fin (- r)
  | PosInf => NegInf
  | NegInf => PosInf
  | NaN => NaN
  end.

Definition num_add (a b : number) : number :=
  match a, b with
  | NaN, _ | _, NaN => NaN
  | PosInf, NegInf | NegInf, PosInf => NaN
  | PosInf, _ | _, PosInf => PosInf
  | NegInf, _ | _, NegInf => NegInf
  | Fin x, Fin y => Fin (x + y)
  end.

Definition num_sub (a b : number) : number := num_add a (num_neg b).

(** An infinity times a finite [r]: the sign of [r] decides, zero gives NaN. *)
Definition inf_times (positive : bool) (r : R) : number :=
  match Rsign r with
  | Gt => if positive then PosInf else NegInf
  | Lt => if positive then NegInf else PosInf
  | Eq => NaN
  end.

Definition num_mul (a b : number) : number :=
  match a, b with
  | NaN, _ | _, NaN => NaN
  | Fin x, Fin y => Fin (x * y)
  | PosInf, Fin y => inf_times true y
  | NegInf, Fin y => inf_times false y
  | Fin x, PosInf => inf_times true x
  | Fin x, NegInf => inf_times false x
  | PosInf, PosInf | NegInf, NegInf => PosInf
  | PosInf, NegInf | NegInf, PosInf => NegInf
  end.

Declare Scope num_scope.
Delimit Scope num_scope with num.
Bind Scope num_scope with number.
Infix "+" := num_add : num_scope.
Infix "-" := num_sub : num_scope.
Infix "*" := num_mul : num_scope.

Definition is_finite (a : number) : bool :=
  match a with Fin _ => true | _ => false end.

(** [a <= b] on numbers: NaN is unordered. *)
Definition num_le (a b : number) : Prop :=
  match a, b with
  | NaN, _ | _, NaN => False
  | NegInf, _ | _, PosInf => True
  | Fin x, Fin y => x <= y
  | _, _ => False
  end.

(** *** The [Math] object *)

Definition Math_PI : number := Fin PI.

(** [Math.log]: the logarithm of a positive number, [-Infinity] at zero,
    NaN below zero. *)
Definition Math_log (a : number) : number :=
  match a with
  | Fin r =>
      match Rsign r with
      | Gt => Fin (ln r)
      | Eq => NegInf
      | Lt => NaN
      end
  | PosInf => PosInf
  | NegInf | NaN => NaN
  end.

(** [Math.sqrt]: NaN below zero. *)
Definition Math_sqrt (a : number) : number :=
  match a with
  | Fin r => if Rltb r 0 then NaN else Fin (sqrt r)
  | PosInf => PosInf
  | NegInf | NaN => NaN
  end.

(** [Math.cos]: NaN at an infinity. *)
Definition Math_cos (a : number) : number :=
  match a with
  | Fin r => Fin (cos r)
  | _ => NaN
  end.

(** [Math.max] of two arguments: NaN as soon as one argument is NaN. *)
Definition Math_max (a b : number) : number :=
  match a, b with
  | NaN, _ | _, NaN => NaN
  | PosInf, _ | _, PosInf => PosInf
  | NegInf, c | c, NegInf => c
  | Fin x, Fin y => Fin (Rmax x y)
  end.

(** [Math.floor] of a finite number, as the integer it denotes. *)
Definition Math_floor (r : R) : Z := Zfloor r.

(** ** The random source

    [Math.random()] is the program's only source of randomness.  A run is
    determined by the sequence of values it returns: [entropy k] is the value
    of the [k]-th call, and the state threaded through the code is the number
    of calls made so far. *)

Definition Rand (A : Type) : Type := (nat -> R) -> nat -> A * nat.

Definition ret {A} (a : A) : Rand A := fun _ k => (a, k).

Definition bind {A B} (m : Rand A) (f : A -> Rand B) : Rand B :=
  fun entropy k => let (a, k') := m entropy k in f a entropy k'.

Notation "x <- m ;; f" := (bind m (fun x => f))
  (at level 61, m at next level, right associativity).

Definition Math_random : Rand number :=
  fun entropy k => (Fin (entropy k), S k).

(** The values [Math.random] may return: the half-open unit interval. *)
Definition uniform_source (entropy : nat -> R) : Prop :=
  forall k, 0 <= entropy k < 1.

(** [for (const x of xs) acc = body(acc, x)], threading the random source. *)
Fixpoint foldM {A S} (body : S -> A -> Rand S) (acc : S) (xs : list A)
  : Rand S :=
  match xs with
  | [] => ret acc
  | x :: xs' => acc' <- body acc x ;; foldM body acc' xs'
  end.

(** What a loop pushes when every round pushes one element and makes [c]
    calls of [Math.random]: the element of round [i] is made from the
    samples that start at [k + c * i]. *)
Fixpoint pushed {A B} (make : A -> nat -> B) (c : nat) (xs : list A) (k : nat)
  : list B :=
  match xs with
  | [] => []
  | x :: xs' => make x k :: pushed make c xs' (c + k)
  end.

(** ** [gaussianRandom] (App.tsx, lines 8-13) *)

Definition gaussianRandom (mean stdev : number) : Rand number :=
  r <- Math_random ;;
  let u := (Fin 1 - r)%num in
  v <- Math_random ;;
  let z := (Math_sqrt (Fin (-2.0) * Math_log u)
            * Math_cos (Fin 2.0 * Math_PI * v))%num in
  ret (z * stdev + mean)%num.

(** ** The fragment shader of [CubeMaterial] (App.tsx, lines 51-132)

    GLSL floats are reals.  The built-ins are those of the GLSL
    specification; [pow] is only used with the exponents 2.0, 3.0 and 4.0 and
    is written with a natural exponent. *)

Module GLSL.

Record vec2 : Type := mkvec2 { ux : R; uy : R }.
Record vec3 : Type := mkvec3 { vx : R; vy : R; vz : R }.
Record vec4 : Type := mkvec4 { rgb : vec3; alpha : R }.

Definition splat (a : R) : vec3 := mkvec3 a a a.

Definition vadd (a b : vec3) : vec3 :=
  mkvec3 (vx a + vx b) (vy a + vy b) (vz a + vz b).
Definition vsub (a b : vec3) : vec3 :=
  mkvec3 (vx a - vx b) (vy a - vy b) (vz a - vz b).
(** vector times scalar, and scalar times vector *)
Definition vscale (a : vec3) (k : R) : vec3 :=
  mkvec3 (vx a * k) (vy a * k) (vz a * k).
Definition scalev (k : R) (a : vec3) : vec3 :=
  mkvec3 (k * vx a) (k * vy a) (k * vz a).

Definition dot (a b : vec3) : R := vx a * vx b + vy a * vy b + vz a * vz b.
Definition length (a : vec3) : R := sqrt (dot a a).
Definition normalize (a : vec3) : vec3 :=
  mkvec3 (vx a / length a) (vy a / length a) (vz a / length a).

Definition clamp (x lo hi : R) : R := Rmin (Rmax x lo) hi.

(** [smoothstep(edge0, edge1, x)]: Hermite interpolation of the clamped
    ratio. *)
Definition smoothstep (edge0 edge1 x : R) : R :=
  let t := clamp ((x - edge0) / (edge1 - edge0)) 0.0 1.0 in
  t * t * (3.0 - 2.0 * t).

(** [mix(x, y, a) = x * (1 - a) + y * a], on floats and component-wise on
    vectors with a float weight. *)
Definition mix (x y a : R) : R := x * (1 - a) + y * a.
Definition mix3 (x y : vec3) (a : R) : vec3 :=
  mkvec3 (mix (vx x) (vx y) a) (mix (vy x) (vy y) a) (mix (vz x) (vz y) a).

Definition floor (x : R) : R := IZR (Zfloor x).
(** [mod(x, y) = x - y * floor(x / y)] *)
Definition mod_ (x y : R) : R := x - y * floor (x / y).


(** Matrices, by rows, with the products of the shading language. *)
Definition dot4 (a b : vec4) : R := dot (rgb a) (rgb b) + alpha a * alpha b.

Record mat3 : Type := mkmat3 { m3row0 : vec3; m3row1 : vec3; m3row2 : vec3 }.
Record mat4 : Type :=
  mkmat4 { row0 : vec4; row1 : vec4; row2 : vec4; row3 : vec4 }.

Definition mulm3v (m : mat3) (v : vec3) : vec3 :=
  mkvec3 (dot (m3row0 m) v) (dot (m3row1 m) v) (dot (m3row2 m) v).

Definition mulm4v (m : mat4) (v : vec4) : vec4 :=
  mkvec4 (mkvec3 (dot4 (row0 m) v) (dot4 (row1 m) v) (dot4 (row2 m) v))
         (dot4 (row3 m) v).

Definition column (m : mat4) (pick : vec4 -> R) : vec4 :=
  mkvec4 (mkvec3 (pick (row0 m)) (pick (row1 m)) (pick (row2 m)))
         (pick (row3 m)).

Definition mulrow (r : vec4) (m : mat4) : vec4 :=
  mkvec4 (mkvec3 (dot4 r (column m (fun v => vx (rgb v))))
                 (dot4 r (column m (fun v => vy (rgb v))))
                 (dot4 r (column m (fun v => vz (rgb v)))))
         (dot4 r (column m alpha)).

Definition mulm4m (a b : mat4) : mat4 :=
  mkmat4 (mulrow (row0 a) b) (mulrow (row1 a) b)
         (mulrow (row2 a) b) (mulrow (row3 a) b).

End GLSL.

(** The vertex shader (App.tsx, lines 25-49). *)
Module VertexShader.

Import GLSL.

(** The attributes of the vertex, the uniforms of the material and the
    matrices supplied by three.js. *)
Record VertexInput : Type := mkVertexInput {
  position : vec3;
  normal : vec3;
  uv : vec2;
  time : R;
  index : R;
  isHovered : R;
  modelMatrix : mat4;
  modelViewMatrix : mat4;
  projectionMatrix : mat4;
  normalMatrix : mat3
}.

Record VertexOutput : Type := mkVertexOutput {
  vUv : vec2;
  vPosition : vec3;
  vNormal : vec3;
  vWorldPosition : vec3;
  gl_Position : vec4
}.

(** The local [pos] of [main] (lines 41-45): the position, moved along x and
    scaled when hovered. *)
Definition displaced (inp : VertexInput) : vec3 :=
  let pos := position inp in
  let pos :=
    mkvec3 (vx pos + sin (time inp * 2.0 + index inp * 0.5) * 0.02)
           (vy pos) (vz pos) in
  let pos := vscale pos (1.0 + isHovered inp * 0.15) in
  pos.

Definition main (inp : VertexInput) : VertexOutput :=
  let vUv := uv inp in
  let vPosition := position inp in
  let vNormal := normalize (mulm3v (normalMatrix inp) (normal inp)) in
  let worldPosition := mulm4v (modelMatrix inp) (mkvec4 (position inp) 1.0) in
  let vWorldPosition := rgb worldPosition in
  let pos := displaced inp in
  let gl_Position :=
    mulm4v (mulm4m (projectionMatrix inp) (modelViewMatrix inp))
           (mkvec4 pos 1.0) in
  mkVertexOutput vUv vPosition vNormal vWorldPosition gl_Position.

End VertexShader.

Module Shader.

Import GLSL.

(** The colour constants of [customPalette], in the order they are
    blended. *)
Definition c0 : vec3 := mkvec3 0.35 0.0 0.0.
Definition c1 : vec3 := mkvec3 0.5 0.0 0.1.
Definition c2 : vec3 := mkvec3 0.7 0.1 0.2.
Definition c3 : vec3 := mkvec3 0.9 0.2 0.1.
Definition c4 : vec3 := mkvec3 1.0 0.4 0.1.
Definition c5 : vec3 := mkvec3 1.0 0.6 0.2.

Definition customPalette (t : R) : vec3 :=
  let t0 := smoothstep 0.0 0.2 t in
  let t1 := smoothstep 0.2 0.4 t in
  let t2 := smoothstep 0.4 0.6 t in
  let t3 := smoothstep 0.6 0.8 t in
  let t4 := smoothstep 0.8 1.0 t in
  let color := mix3 c0 c1 t0 in
  let color := mix3 color c2 t1 in
  let color := mix3 color c3 t2 in
  let color := mix3 color c4 t3 in
  let color := mix3 color c5 t4 in
  color.

(** The anchors of the palette, and the vocabulary to speak of their hull:
    the extreme values of a channel over the anchors, and a weighted sum of
    colours. *)
Definition anchors : list vec3 := [c0; c1; c2; c3; c4; c5].

Definition channel_min (channel : vec3 -> R) : R :=
  fold_right Rmin (channel c0) (map channel anchors).
Definition channel_max (channel : vec3 -> R) : R :=
  fold_right Rmax (channel c0) (map channel anchors).

Definition between (a b x : R) : Prop := Rmin a b <= x <= Rmax a b.

(** Channel by channel between the extremes of the anchors. *)
Definition in_box (v : vec3) : Prop :=
  channel_min vx <= vx v <= channel_max vx /\
  channel_min vy <= vy v <= channel_max vy /\
  channel_min vz <= vz v <= channel_max vz.

Fixpoint weighted_sum (weights : list R) (colors : list vec3) : vec3 :=
  match weights, colors with
  | w :: weights', c :: colors' =>
      vadd (scalev w c) (weighted_sum weights' colors')
  | _, _ => splat 0
  end.

Definition fogFactor (dist density : R) : R :=
  let fogAmount := 1.0 - exp (- dist * density) in
  clamp fogAmount 0.0 1.0.

(** Everything a fragment invocation can read: the uniforms of the
    material, the varyings written by the vertex shader, and three.js's
    [cameraPosition]. *)
Record FragmentInput : Type := mkFragmentInput {
  color : vec3;
  time : R;
  index : R;
  randomValue : R;
  isHovered : R;
  vUv : vec2;
  vPosition : vec3;
  vNormal : vec3;
  vWorldPosition : vec3;
  cameraPosition : vec3
}.

(** What an invocation writes. *)
Record FragmentOutput : Type := mkFragmentOutput { gl_FragColor : vec4 }.

Definition viewDirectionOf (inp : FragmentInput) : vec3 :=
  normalize (vsub (cameraPosition inp) (vWorldPosition inp)).

(** The hover branch of [main] (lines 106-128), from the colour computed
    so far. *)
Definition hoverGlow (inp : FragmentInput) (viewDirection finalColor : vec3)
  : vec3 :=
  let fogDensity := 2.0 + sin (time inp * 3.0) * 0.5 in
  let dist := length (vPosition inp) in
  let fog := fogFactor dist fogDensity in
  let fogColor := mkvec3 1.0 0.3 0.1 in
  let glowColor :=
    mix3 finalColor fogColor
         (fog * isHovered inp * (0.8 + 0.2 * sin (time inp * 4.0))) in
  let emission := 0.4 + 0.2 * sin (time inp * 5.0) in
  let finalColor := mix3 finalColor glowColor (isHovered inp) in
  let finalColor :=
    vadd finalColor (vscale (vscale fogColor emission) (isHovered inp)) in
  let edgeGlow := (1.0 - dot viewDirection (vNormal inp)) ^ 4 in
  let finalColor :=
    vadd finalColor (vscale (vscale fogColor edgeGlow) (isHovered inp)) in
  finalColor.

(** [void main()]: the previous content of the output is passed in, as the
    state the invocation runs on, and replaced. *)
Definition main (inp : FragmentInput) (out : FragmentOutput) : FragmentOutput :=
  let viewDirection := viewDirectionOf inp in
  let fresnel := (1.0 - dot viewDirection (vNormal inp)) ^ 2 in
  let t := mod_ (randomValue inp + time inp * 0.1) 1.0 in
  let baseColor := customPalette t in
  let rim := (1.0 - dot viewDirection (vNormal inp)) ^ 3 * 0.5 in
  let finalColor := baseColor in
  let finalColor := vadd finalColor (scalev rim (mkvec3 0.3 0.1 0.1)) in
  let finalColor :=
    vscale finalColor (0.8 + 0.2 * sin (time inp * 2.0 + index inp * 0.5)) in
  let finalColor :=
    if Rgtb (isHovered inp) 0.0
    then hoverGlow inp viewDirection finalColor
    else finalColor in
  mkFragmentOutput (mkvec4 finalColor 1.0).

End Shader.

(** ** The document

    The two pieces of browser state the components touch:
    [document.body.style.cursor] and [document.fullscreenElement]. *)

Inductive Element : Type := documentElement.

Record Document : Type := mkDocument {
  cursor : string;
  fullscreenElement : option Element
}.

Definition set_cursor (doc : Document) (c : string) : Document :=
  mkDocument c (fullscreenElement doc).

(** The [keydown] listeners registered on [window].  A listener is a
    function object; it is known by its identity, here a number.
    [addEventListener] ignores a listener that is already registered. *)
Record Window : Type := mkWindow { keydown : list nat }.

Definition addEventListener (listener : nat) (w : Window) : Window :=
  if existsb (Nat.eqb listener) (keydown w) then w
  else mkWindow (keydown w ++ [listener]).

Definition removeEventListener (listener : nat) (w : Window) : Window :=
  mkWindow (filter (fun l => negb (Nat.eqb listener l)) (keydown w)).

(** A JavaScript array of three numbers, [[x, y, z]]. *)
Definition triple : Type := (R * R * R)%type.
Definition at0 (p : triple) : R := fst (fst p).
Definition at1 (p : triple) : R := snd (fst p).
Definition at2 (p : triple) : R := snd p.

(** ** [Cube] (App.tsx, lines 145-189) *)

Module Cube.

Record Props : Type := mkProps {
  key : Z;
  position : triple;
  color : Z;
  index : Z;
  randomValue : number
}.

(** [const [hovered, setHovered] = useState(false)] *)
Record State : Type := mkState { hovered : bool }.

Definition initial : State := mkState false.

(** The uniforms of the [cubeMaterial] behind [materialRef]. *)
Record Material : Type := mkMaterial {
  u_time : R;
  u_color : Z;
  u_index : Z;
  u_randomValue : number;
  u_isHovered : R
}.

(** The [useFrame] callback (lines 155-163); [elapsedTime] is
    [state.clock.elapsedTime]. *)
Definition useFrame (props : Props) (st : State) (elapsedTime : R)
           (materialRef : option Material) : option Material :=
  match materialRef with
  | None => None
  | Some _ =>
      Some (mkMaterial elapsedTime (color props) (index props)
                       (randomValue props)
                       (if hovered st then 1.0 else 0.0))
  end.

(** [event.stopPropagation()] acts on the event only. *)
Definition handlePointerOver (st : State) (doc : Document) : State * Document :=
  (mkState true, set_cursor doc "pointer").

Definition handlePointerOut (st : State) (doc : Document) : State * Document :=
  (mkState false, set_cursor doc "auto").

(** The pointer events the mesh subscribes to, and their dispatch. *)
Inductive PointerEvent : Type := pointerover | pointerout.

Definition handle (ev : PointerEvent) (s : State * Document)
  : State * Document :=
  match ev with
  | pointerover => handlePointerOver (fst s) (snd s)
  | pointerout => handlePointerOut (fst s) (snd s)
  end.

Definition run (evs : list PointerEvent) (s : State * Document)
  : State * Document :=
  fold_left (fun s ev => handle ev s) evs s.

End Cube.

(** ** [Tower] (App.tsx, lines 191-249)

    A tower is mounted with finite props: [Towers] passes literals, grid
    arithmetic and the clamped height. *)

Module Tower.

Record Props : Type := mkProps {
  position : triple;
  delay : R;
  height : R;
  randomValue : R
}.

(** The [THREE.Group] behind [groupRef]; only its scale is touched. *)
Record Group : Type := mkGroup { scale_x : R; scale_y : R; scale_z : R }.

Definition set_scale_y (g : Group) (v : R) : Group :=
  mkGroup (scale_x g) v (scale_z g).

Definition numCubes (props : Props) : Z := Math_floor (height props * 8).

(** Seconds since the tower was mounted at [startTime], and the same minus
    the delay (the local [elapsedTime] of the frame callback), at the
    millisecond [now]. *)
Definition sinceMount (startTime now : Z) : R := IZR (now - startTime) / 1000.
Definition elapsedTime (props : Props) (startTime now : Z) : R :=
  sinceMount startTime now - delay props.

(** The indices [0, 1, ..., n - 1] visited by
    [for (let i = 0; i < n; i++)]. *)
Definition range (n : Z) : list Z := map Z.of_nat (seq 0 (Z.to_nat n)).

(** The loop of the mount effect (lines 203-215): one [Cube] per index,
    each with its own draw of [gaussianRandom(0.5, 0.2)]. *)
Definition cubeElements (props : Props) : Rand (list Cube.Props) :=
  foldM
    (fun cubeElements i =>
       cubeRandomValue <- gaussianRandom (Fin 0.5) (Fin 0.2) ;;
       ret (cubeElements ++
            [Cube.mkProps i
               (at0 (position props),
                at1 (position props) + IZR i * 0.5,
                at2 (position props))
               0x006FEE i cubeRandomValue]))
    [] (range (numCubes props)).

(** The callback of [setInterval] (lines 218-222), run once a second. *)
Definition tick (visible : bool) : Rand bool :=
  r <- Math_random ;;
  ret (match r with
       | Fin x => if Rltb x 0.1 then negb visible else visible
       | _ => visible
       end).

(** [n] consecutive runs of the callback. *)
Definition ticks (n : nat) (visible : bool) : Rand bool :=
  foldM (fun visible _ => tick visible) visible (seq 0 n).

(** How many of the [n] samples from the [k]-th on are below 0.1. *)
Fixpoint flips (entropy : nat -> R) (k n : nat) : nat :=
  match n with
  | O => O
  | S n' =>
      ((if Rltb (entropy k) 0.1 then 1 else 0) + flips entropy (S k) n')%nat
  end.

(** The [useFrame] callback (lines 229-246).  [now] is [Date.now()] and
    [startTime] is [startTime.current], both in milliseconds. *)
Definition useFrame (props : Props) (startTime now : Z) (visible : bool)
           (groupRef : option Group) : option Group :=
  match groupRef with
  | None => None
  | Some g =>
      let elapsedTime := IZR (now - startTime) / 1000 - delay props in
      if Rltb elapsedTime 0 || negb visible then Some (set_scale_y g 0)
      else if Rgtb elapsedTime 1.5 then Some (set_scale_y g 1)
      else
        let progress := Rmin (elapsedTime / 1.5) 1 in
        let easeOutQuart := 1 - (1 - progress) ^ 4 in
        Some (set_scale_y g easeOutQuart)
  end.

End Tower.

(** ** [Towers] (App.tsx, lines 251-296) *)

Module Towers.

(** The props of one [<Tower>] element as they are computed: the height and
    the phase come out of [gaussianRandom].  The key, a string made of [x]
    and [z], is kept as the pair. *)
Record Element : Type := mkElement {
  key : nat * nat;
  position : triple;
  delay : R;
  height : number;
  randomValue : number
}.

Definition size : nat := 12.
Definition spacing : R := 0.8.

(** The body of the inner loop (lines 265-291). *)
Definition cell (towers : list Element) (x z : nat) : Rand (list Element) :=
  let posX := (INR x - INR size / 2 + 0.5) * spacing in
  let posZ := (INR z - INR size / 2 + 0.5) * spacing in
  let delay := (INR x + INR z) * 0.08 in
  let centerX := INR size / 2 - 0.5 in
  let centerZ := INR size / 2 - 0.5 in
  let distanceFromCenter :=
    sqrt ((INR x - centerX) ^ 2 + (INR z - centerZ) ^ 2) in
  let maxDistance := sqrt 2 * INR size / 2 in
  let baseHeight := 2.5 in
  let heightVariation := 1.5 in
  let normalizedDistance := distanceFromCenter / maxDistance in
  noise <- gaussianRandom (Fin 0) (Fin 0.3) ;;
  let height :=
    (Fin (baseHeight - heightVariation * normalizedDistance) + noise)%num in
  randomValue <- gaussianRandom (Fin 0.5) (Fin 0.2) ;;
  ret (towers ++
       [mkElement (x, z) (posX, -2, posZ) delay
                  (Math_max (Fin 0.5) height) randomValue]).

(** The two nested loops (lines 263-293) and the array they fill. *)
Definition towers : Rand (list Element) :=
  foldM (fun towers x =>
           foldM (fun towers z => cell towers x z) towers (seq 0 size))
        [] (seq 0 size).

(** The props a [Tower] is mounted with, when they are finite. *)
Definition mount (e : Element) : option Tower.Props :=
  match height e, randomValue e with
  | Fin h, Fin rv => Some (Tower.mkProps (position e) (delay e) h rv)
  | _, _ => None
  end.

End Towers.

(** ** [PS2Text] (App.tsx, lines 298-330) *)

Module PS2Text.

(** [const [visible, setVisible] = useState(false)]; the timer of the mount
    effect while it is pending, by the time it is due (milliseconds); and
    whether the component is in the tree, since an unmounted component
    renders nothing and its state is gone. *)
Record State : Type := mkState {
  visible : bool;
  timer : option Z;
  mounted : bool
}.

(** The first render and the effect: [setTimeout(..., 2000)]. *)
Definition mount (now : Z) : State :=
  mkState false (Some (now + 2000)%Z) true.

(** What happens to the component: the clock reaches [now], and the browser
    runs the callback of a timer that is due; or the component is unmounted
    and the cleanup runs [clearTimeout]. *)
Inductive Event : Type :=
| clock (now : Z)
| unmount.

Definition handle (st : State) (ev : Event) : State :=
  match ev with
  | clock now =>
      match timer st with
      | Some due =>
          if (due <=? now)%Z then mkState true None (mounted st) else st
      | None => st
      end
  | unmount => mkState (visible st) None false
  end.

Definition run (evs : list Event) (st : State) : State :=
  fold_left handle evs st.

(** What is on the screen: nothing once the component is unmounted; while it
    is mounted, nothing ([null]) until it is visible, then the label. *)
Definition render (st : State) : option string :=
  if mounted st then
    if visible st then Some "PS2"%string else None
  else None.


Definition stays_mounted (evs : list Event) : Prop :=
  Forall (fun ev => ev <> unmount) evs.

End PS2Text.

(** ** [App] (App.tsx, lines 343-377) *)

Module App.

(** [const [isFullscreen, setIsFullscreen] = useState(false)] *)
Record State : Type := mkState { isFullscreen : bool }.

Definition initial : State := mkState false.

(** The Fullscreen API of the browser: what the two calls do to the
    document. *)
Record Platform : Type := mkPlatform {
  requestFullscreen : Element -> Document -> Document;
  exitFullscreen : Document -> Document
}.

Definition toggleFullscreen (platform : Platform) (s : State * Document)
  : State * Document :=
  let doc := snd s in
  match fullscreenElement doc with
  | None =>
      let doc := requestFullscreen platform documentElement doc in
      (mkState true, doc)
  | Some _ =>
      let doc := exitFullscreen platform doc in
      (mkState false, doc)
  end.

Definition handleKeyPress (platform : Platform) (key : string)
           (s : State * Document) : State * Document :=
  if (String.eqb key "f" || String.eqb key "F")%bool
  then toggleFullscreen platform s
  else s.

(** A browser that carries out the transition it is asked for. *)
Definition grants (platform : Platform) : Prop :=
  (forall el doc,
      fullscreenElement (requestFullscreen platform el doc) = Some el) /\
  (forall doc, fullscreenElement (exitFullscreen platform doc) = None).

Definition inFullscreen (doc : Document) : bool :=
  match fullscreenElement doc with Some _ => true | None => false end.


(** The effect of lines 356-365: it registers a fresh [handleKeyPress] on
    [window]; its cleanup removes that listener. *)
Definition effect (listener : nat) (w : Window) : Window :=
  addEventListener listener w.

Definition cleanup (listener : nat) (w : Window) : Window :=
  removeEventListener listener w.

(** A [keydown] event on [window]: every registered listener runs. *)
Definition dispatchKeydown (platform : Platform) (key : string) (w : Window)
           (s : State * Document) : State * Document :=
  fold_left (fun s _ => handleKeyPress platform key s) (keydown w) s.

(** The keys the handler reacts to, and a run of [keydown] events. *)
Definition isToggleKey (key : string) : bool :=
  (String.eqb key "f" || String.eqb key "F")%bool.

Definition keydowns (platform : Platform) (w : Window) (keys : list string)
           (s : State * Document) : State * Document :=
  fold_left (fun s key => dispatchKeydown platform key w s) keys s.

End App.

(** * Verification *)

(** ** Deciding comparisons *)

Lemma Rsign_pos (r : R) : 0 < r -> Rsign r = Gt.
Proof.
  intros H. unfold Rsign.
  destruct (total_order_T r 0) as [[Hlt | Heq] | Hgt]; try reflexivity; lra.
Qed.

Lemma Rsign_neg (r : R) : r < 0 -> Rsign r = Lt.
Proof.
  intros H. unfold Rsign.
  destruct (total_order_T r 0) as [[Hlt | Heq] | Hgt]; try reflexivity; lra.
Qed.

Lemma Rsign_zero : Rsign 0 = Eq.
Proof.
  unfold Rsign.
  destruct (total_order_T 0 0) as [[Hlt | Heq] | Hgt]; try reflexivity; lra.
Qed.

Lemma Rltb_true (a b : R) : a < b -> Rltb a b = true.
Proof. intros H. unfold Rltb. destruct (Rlt_dec a b); [reflexivity | lra]. Qed.

Lemma Rltb_false (a b : R) : b <= a -> Rltb a b = false.
Proof. intros H. unfold Rltb. destruct (Rlt_dec a b); [lra | reflexivity]. Qed.

Lemma Rgtb_true (a b : R) : b < a -> Rgtb a b = true.
Proof. intros H. unfold Rgtb. destruct (Rgt_dec a b); [reflexivity | lra]. Qed.

Lemma Rgtb_false (a b : R) : a <= b -> Rgtb a b = false.
Proof. intros H. unfold Rgtb. destruct (Rgt_dec a b); [lra | reflexivity]. Qed.

(** Splits every [Rmin], [Rmax] and boolean comparison in sight, innermost
    first. *)
Ltac no_cmp t :=
  lazymatch t with
  | context [Rle_dec _ _] => fail
  | context [Rlt_dec _ _] => fail
  | context [Rgt_dec _ _] => fail
  | _ => idtac
  end.

Ltac split_cmp :=
  unfold GLSL.clamp, Rmin, Rmax, Rltb, Rgtb in *;
  repeat match goal with
         | |- context [Rle_dec ?a ?b] =>
             no_cmp a; no_cmp b; destruct (Rle_dec a b)
         | |- context [Rlt_dec ?a ?b] =>
             no_cmp a; no_cmp b; destruct (Rlt_dec a b)
         | |- context [Rgt_dec ?a ?b] =>
             no_cmp a; no_cmp b; destruct (Rgt_dec a b)
         end.

(** ** [gaussianRandom] *)

Lemma ln_unit_interval (u : R) : 0 < u <= 1 -> ln u <= 0.
Proof.
  intros [Hpos Hle]. rewrite <- ln_1.
  destruct (Rle_lt_or_eq_dec _ _ Hle) as [Hlt | Heq].
  - left. apply ln_increasing; assumption.
  - subst u. right. reflexivity.
Qed.

Lemma Math_log_unit (u : R) : 0 < u <= 1 -> Math_log (Fin u) = Fin (ln u).
Proof. intros [Hpos _]. simpl. rewrite Rsign_pos by assumption. reflexivity. Qed.

(** One call consumes two values of the source and returns the Box-Muller
    expression over them. *)
Lemma gaussianRandom_run (entropy : nat -> R) (mean stdev : R) (k : nat) :
  0 <= entropy k < 1 ->
  gaussianRandom (Fin mean) (Fin stdev) entropy k =
  (Fin (sqrt (-2.0 * ln (1 - entropy k))
        * cos (2.0 * PI * entropy (S k)) * stdev + mean),
   S (S k)).
Proof.
  intros Hk.
  assert (Hu : 0 < 1 - entropy k <= 1) by lra.
  pose proof (ln_unit_interval _ Hu) as Hln.
  unfold gaussianRandom, bind, Math_random, ret.
  change (Fin 1 - Fin (entropy k))%num with (Fin (1 - entropy k)).
  rewrite Math_log_unit by assumption.
  cbn [num_mul Math_sqrt Math_cos Math_PI num_add].
  rewrite Rltb_false by lra.
  reflexivity.
Qed.

(** The number of calls of [Math.random] made so far advances by two,
    whatever the source returns. *)
Lemma gaussianRandom_calls (entropy : nat -> R) (mean stdev : number) (k : nat) :
  snd (gaussianRandom mean stdev entropy k) = S (S k).
Proof. reflexivity. Qed.

(** The interval has to be open at 1: a sample of exactly 1 gives [u = 0],
    [Math.log(u) = -Infinity], and a result that is not finite. *)
Lemma gaussianRandom_at_one (entropy : nat -> R) (mean stdev : R) (k : nat) :
  entropy k = 1 ->
  is_finite (fst (gaussianRandom (Fin mean) (Fin stdev) entropy k)) = false.
Proof.
  intros Hk.
  unfold gaussianRandom, bind, Math_random, ret.
  change (Fin 1 - Fin (entropy k))%num with (Fin (1 - entropy k)).
  replace (1 - entropy k) with 0 by lra.
  cbn [Math_log]. rewrite Rsign_zero.
  cbn [num_mul]. unfold inf_times at 1. rewrite Rsign_neg by lra.
  cbn [Math_sqrt Math_PI num_mul Math_cos fst].
  unfold inf_times.
  destruct (Rsign (cos _)); cbn [num_mul num_add is_finite];
    try reflexivity; unfold inf_times; destruct (Rsign stdev); reflexivity.
Qed.

(** C10.  For any two uniform samples in [[0, 1)] (the values of two
    consecutive calls of [Math.random]) and finite [mean] and [stdev],
    [gaussianRandom] returns a finite number: [u = 1 - Math.random()] lies in
    [(0, 1]], so [Math.log(u)] is the finite, non-positive [ln u], the
    argument [-2 * ln u] of [Math.sqrt] is non-negative, and the result is a
    real number, neither NaN nor an infinity. *)
Theorem gaussianRandom_finite (entropy : nat -> R) (mean stdev : R) (k : nat) :
  0 <= entropy k < 1 ->
  0 <= entropy (S k) < 1 ->
  let u := 1 - entropy k in
  0 < u <= 1 /\
  Math_log (Fin u) = Fin (ln u) /\
  ln u <= 0 /\
  0 <= -2.0 * ln u /\
  Math_sqrt (Fin (-2.0) * Math_log (Fin u)) = Fin (sqrt (-2.0 * ln u)) /\
  is_finite (fst (gaussianRandom (Fin mean) (Fin stdev) entropy k)) = true.
Proof.
  intros Hk Hk' u.
  assert (Hu : 0 < u <= 1) by (unfold u; lra).
  pose proof (ln_unit_interval _ Hu) as Hln.
  repeat split; try lra.
  - apply Math_log_unit; assumption.
  - rewrite Math_log_unit by assumption. simpl.
    rewrite Rltb_false by lra. reflexivity.
  - rewrite gaussianRandom_run by assumption. reflexivity.
Qed.

Lemma gaussianRandom_finite_witness :
  let entropy := fun _ : nat => 0 in
  0 <= entropy 0%nat < 1 /\
  0 <= entropy 1%nat < 1 /\
  is_finite (fst (gaussianRandom (Fin 0) (Fin 1) entropy 0%nat)) = true.
Proof.
  intros entropy.
  assert (H0 : 0 <= entropy 0%nat < 1) by (unfold entropy; lra).
  assert (H1 : 0 <= entropy 1%nat < 1) by (unfold entropy; lra).
  split; [exact H0 | split; [exact H1 |]].
  exact (proj2 (proj2 (proj2 (proj2 (proj2
           (gaussianRandom_finite entropy 0 1 0%nat H0 H1)))))).
Defined.

(** ** The palette *)

Section Palette.

Import GLSL Shader.

Lemma clamp_unit (x : R) : 0 <= clamp x 0.0 1.0 <= 1.
Proof. split_cmp; lra. Qed.

Lemma hermite_unit (t : R) : 0 <= t <= 1 -> 0 <= t * t * (3.0 - 2.0 * t) <= 1.
Proof.
  intros [H0 H1]. split.
  - apply Rmult_le_pos; [apply Rmult_le_pos; assumption | lra].
  - assert (H : 0 <= (1 - t) * (1 - t) * (1 + 2 * t))
      by (apply Rmult_le_pos; [apply Rmult_le_pos; lra | lra]).
    lra.
Qed.

Lemma smoothstep_unit (edge0 edge1 x : R) : 0 <= smoothstep edge0 edge1 x <= 1.
Proof. unfold smoothstep. apply hermite_unit. apply clamp_unit. Qed.

Lemma smoothstep_below (edge0 edge1 x : R) :
  edge0 < edge1 -> x <= edge0 -> smoothstep edge0 edge1 x = 0.
Proof.
  intros He Hx. unfold smoothstep.
  assert (Hq : (x - edge0) / (edge1 - edge0) <= 0).
  { assert (Hinv : 0 < / (edge1 - edge0)) by (apply Rinv_0_lt_compat; lra).
    unfold Rdiv. nra. }
  replace (clamp ((x - edge0) / (edge1 - edge0)) 0.0 1.0) with 0
    by (split_cmp; lra).
  lra.
Qed.

Lemma smoothstep_above (edge0 edge1 x : R) :
  edge0 < edge1 -> edge1 <= x -> smoothstep edge0 edge1 x = 1.
Proof.
  intros He Hx. unfold smoothstep.
  assert (Hq : 1 <= (x - edge0) / (edge1 - edge0)).
  { assert (Hinv : 0 < / (edge1 - edge0)) by (apply Rinv_0_lt_compat; lra).
    assert (Hone : (edge1 - edge0) * / (edge1 - edge0) = 1)
      by (apply Rinv_r; lra).
    unfold Rdiv. nra. }
  replace (clamp ((x - edge0) / (edge1 - edge0)) 0.0 1.0) with 1
    by (split_cmp; lra).
  lra.
Qed.

Lemma mix_between (lo hi x y a : R) :
  lo <= x <= hi -> lo <= y <= hi -> 0 <= a <= 1 -> lo <= mix x y a <= hi.
Proof. intros Hx Hy Ha. unfold mix. nra. Qed.

Lemma mix_0 (x y : R) : mix x y 0 = x.
Proof. unfold mix. ring. Qed.

Lemma mix_1 (x y : R) : mix x y 1 = y.
Proof. unfold mix. ring. Qed.

Lemma mix3_0 (x y : vec3) : mix3 x y 0 = x.
Proof. destruct x. unfold mix3. rewrite !mix_0. reflexivity. Qed.

Lemma mix3_1 (x y : vec3) : mix3 x y 1 = y.
Proof. destruct y. unfold mix3. rewrite !mix_1. reflexivity. Qed.

Lemma mix_is_between (x y a : R) : 0 <= a <= 1 -> between x y (mix x y a).
Proof.
  intros Ha. unfold between.
  apply mix_between; try exact Ha; split;
    auto using Rmin_l, Rmin_r, Rmax_l, Rmax_r.
Qed.

(** Evaluates [Rmin] and [Rmax] of constants, innermost first. *)
Ltac no_minmax t :=
  lazymatch t with
  | context [Rmin _ _] => fail
  | context [Rmax _ _] => fail
  | _ => idtac
  end.

Ltac eval_minmax :=
  repeat match goal with
         | |- context [Rmin ?a ?b] =>
             no_minmax a; no_minmax b;
             first [rewrite (Rmin_left a b) by lra
                   | rewrite (Rmin_right a b) by lra]
         | |- context [Rmax ?a ?b] =>
             no_minmax a; no_minmax b;
             first [rewrite (Rmax_left a b) by lra
                   | rewrite (Rmax_right a b) by lra]
         end.

(** The extreme values of the three channels over the anchors. *)
Lemma channel_extremes :
  channel_min vx = 0.35 /\ channel_max vx = 1.0 /\
  channel_min vy = 0.0 /\ channel_max vy = 0.6 /\
  channel_min vz = 0.0 /\ channel_max vz = 0.2.
Proof.
  unfold channel_min, channel_max, anchors, c0, c1, c2, c3, c4, c5.
  cbn [map fold_right vx vy vz].
  repeat apply conj; eval_minmax; reflexivity.
Qed.

Lemma mix3_in_box (x y : vec3) (a : R) :
  in_box x -> in_box y -> 0 <= a <= 1 -> in_box (mix3 x y a).
Proof.
  intros (Hx1 & Hx2 & Hx3) (Hy1 & Hy2 & Hy3) Ha.
  unfold in_box, mix3. cbn [vx vy vz].
  split; [| split]; apply mix_between; assumption.
Qed.

Lemma anchors_in_box : Forall in_box anchors.
Proof.
  unfold anchors, in_box.
  destruct channel_extremes as (-> & -> & -> & -> & -> & ->).
  repeat apply Forall_cons; try apply Forall_nil;
    cbn [vx vy vz c0 c1 c2 c3 c4 c5]; lra.
Qed.

(** Five nested blends are one weighted sum of the six colours. *)
Lemma blend_weights (a0 a1 a2 a3 a4 a5 : vec3) (t0 t1 t2 t3 t4 : R) :
  mix3 (mix3 (mix3 (mix3 (mix3 a0 a1 t0) a2 t1) a3 t2) a4 t3) a5 t4 =
  weighted_sum
    [(1 - t0) * (1 - t1) * (1 - t2) * (1 - t3) * (1 - t4);
     t0 * (1 - t1) * (1 - t2) * (1 - t3) * (1 - t4);
     t1 * (1 - t2) * (1 - t3) * (1 - t4);
     t2 * (1 - t3) * (1 - t4);
     t3 * (1 - t4);
     t4]
    [a0; a1; a2; a3; a4; a5].
Proof.
  destruct a0, a1, a2, a3, a4, a5.
  unfold mix3, mix, weighted_sum, vadd, scalev, splat. cbn [vx vy vz].
  f_equal; ring.
Qed.

Lemma blend_weights_convex (t0 t1 t2 t3 t4 : R) :
  0 <= t0 <= 1 -> 0 <= t1 <= 1 -> 0 <= t2 <= 1 -> 0 <= t3 <= 1 ->
  0 <= t4 <= 1 ->
  let weights :=
    [(1 - t0) * (1 - t1) * (1 - t2) * (1 - t3) * (1 - t4);
     t0 * (1 - t1) * (1 - t2) * (1 - t3) * (1 - t4);
     t1 * (1 - t2) * (1 - t3) * (1 - t4);
     t2 * (1 - t3) * (1 - t4);
     t3 * (1 - t4);
     t4] in
  Forall (Rle 0) weights /\ fold_right Rplus 0 weights = 1.
Proof.
  intros H0 H1 H2 H3 H4 weights. unfold weights. split.
  - repeat apply Forall_cons; try apply Forall_nil;
      repeat apply Rmult_le_pos; lra.
  - cbn [fold_right]. ring.
Qed.

(** Inside a band only the blend of that band is active. *)
Lemma palette_band (t : R) (j : nat) :
  (j < 5)%nat ->
  INR j * 0.2 <= t <= (INR j + 1) * 0.2 ->
  exists a,
    0 <= a <= 1 /\
    customPalette t = mix3 (nth j anchors c0) (nth (S j) anchors c0) a.
Proof.
  intros Hj Ht. unfold customPalette.
  assert (Hcases : j = 0%nat \/ j = 1%nat \/ j = 2%nat \/ j = 3%nat \/ j = 4%nat)
    by lia.
  destruct Hcases as [-> | [-> | [-> | [-> | ->]]]];
    cbn [INR] in Ht; clear Hj; cbn [nth anchors].
  - exists (smoothstep 0.0 0.2 t). split; [apply smoothstep_unit |].
    rewrite (smoothstep_below 0.2 0.4 t), (smoothstep_below 0.4 0.6 t),
      (smoothstep_below 0.6 0.8 t), (smoothstep_below 0.8 1.0 t) by lra.
    rewrite !mix3_0. reflexivity.
  - exists (smoothstep 0.2 0.4 t). split; [apply smoothstep_unit |].
    rewrite (smoothstep_above 0.0 0.2 t), (smoothstep_below 0.4 0.6 t),
      (smoothstep_below 0.6 0.8 t), (smoothstep_below 0.8 1.0 t) by lra.
    rewrite !mix3_0, !mix3_1. reflexivity.
  - exists (smoothstep 0.4 0.6 t). split; [apply smoothstep_unit |].
    rewrite (smoothstep_above 0.0 0.2 t), (smoothstep_above 0.2 0.4 t),
      (smoothstep_below 0.6 0.8 t), (smoothstep_below 0.8 1.0 t) by lra.
    rewrite !mix3_0, !mix3_1. reflexivity.
  - exists (smoothstep 0.6 0.8 t). split; [apply smoothstep_unit |].
    rewrite (smoothstep_above 0.0 0.2 t), (smoothstep_above 0.2 0.4 t),
      (smoothstep_above 0.4 0.6 t), (smoothstep_below 0.8 1.0 t) by lra.
    rewrite !mix3_0, !mix3_1. reflexivity.
  - exists (smoothstep 0.8 1.0 t). split; [apply smoothstep_unit |].
    rewrite (smoothstep_above 0.0 0.2 t), (smoothstep_above 0.2 0.4 t),
      (smoothstep_above 0.4 0.6 t), (smoothstep_above 0.6 0.8 t) by lra.
    rewrite !mix3_1. reflexivity.
Qed.

(** Every phase of the unit interval lies in one of the five bands. *)
Lemma band_of_phase (t : R) :
  0 <= t < 1 -> exists j, (j < 5)%nat /\ INR j * 0.2 <= t < (INR j + 1) * 0.2.
Proof.
  intros Ht.
  destruct (Rlt_or_le t 0.2); [exists 0%nat; cbn [INR]; split; [lia | lra] |].
  destruct (Rlt_or_le t 0.4); [exists 1%nat; cbn [INR]; split; [lia | lra] |].
  destruct (Rlt_or_le t 0.6); [exists 2%nat; cbn [INR]; split; [lia | lra] |].
  destruct (Rlt_or_le t 0.8); [exists 3%nat; cbn [INR]; split; [lia | lra] |].
  exists 4%nat; cbn [INR]; split; [lia | lra].
Qed.

End Palette.

(** C1.  For every phase [t] in [[0, 1)] the colour [customPalette t] lies
    in the hull of the anchor colours [c0 .. c5] that bound the five bands:
    each of its channels lies between the least and the greatest value of
    that channel over the anchors (red in [[0.35, 1]], green in [[0, 0.6]],
    blue in [[0, 0.2]]); the colour is a convex combination of the anchors;
    and within the band of [t] it is a blend of the two anchors of that
    band, each channel between theirs. *)
Theorem customPalette_in_hull (t : R) :
  0 <= t < 1 ->
  let color := Shader.customPalette t in
  (Shader.channel_min GLSL.vx <= GLSL.vx color <= Shader.channel_max GLSL.vx /\
   Shader.channel_min GLSL.vy <= GLSL.vy color <= Shader.channel_max GLSL.vy /\
   Shader.channel_min GLSL.vz <= GLSL.vz color <= Shader.channel_max GLSL.vz) /\
  (0.35 <= GLSL.vx color <= 1 /\
   0 <= GLSL.vy color <= 0.6 /\
   0 <= GLSL.vz color <= 0.2) /\
  (exists weights,
      List.length weights = List.length Shader.anchors /\
      Forall (Rle 0) weights /\
      fold_right Rplus 0 weights = 1 /\
      color = Shader.weighted_sum weights Shader.anchors) /\
  (exists j a,
      (j < 5)%nat /\
      INR j * 0.2 <= t < (INR j + 1) * 0.2 /\
      0 <= a <= 1 /\
      let lower := nth j Shader.anchors Shader.c0 in
      let upper := nth (S j) Shader.anchors Shader.c0 in
      color = GLSL.mix3 lower upper a /\
      Shader.between (GLSL.vx lower) (GLSL.vx upper) (GLSL.vx color) /\
      Shader.between (GLSL.vy lower) (GLSL.vy upper) (GLSL.vy color) /\
      Shader.between (GLSL.vz lower) (GLSL.vz upper) (GLSL.vz color)).
Proof.
  intros Ht. cbv zeta.
  assert (Hbox : Shader.in_box (Shader.customPalette t)).
  { pose proof anchors_in_box as Ha. unfold Shader.anchors in Ha.
    repeat match type of Ha with
           | Forall _ (_ :: _) =>
               let H := fresh "Hc" in
               apply Forall_cons_iff in Ha; destruct Ha as [H Ha]
           end.
    unfold Shader.customPalette.
    repeat (apply mix3_in_box; [| assumption | apply smoothstep_unit]).
    assumption. }
  split; [exact Hbox |].
  split.
  { unfold Shader.in_box in Hbox.
    destruct channel_extremes as (E1 & E2 & E3 & E4 & E5 & E6).
    rewrite E1, E2, E3, E4, E5, E6 in Hbox. lra. }
  split.
  { unfold Shader.customPalette, Shader.anchors. rewrite blend_weights.
    eexists. split; [| split; [| split; [| reflexivity]]].
    - reflexivity.
    - apply blend_weights_convex; apply smoothstep_unit.
    - apply blend_weights_convex; apply smoothstep_unit. }
  destruct (band_of_phase t Ht) as (j & Hj & Hband).
  destruct (palette_band t j Hj) as (a & Ha & Hmix); [lra |].
  exists j, a.
  split; [exact Hj |]. split; [exact Hband |]. split; [exact Ha |].
  split; [exact Hmix |].
  rewrite Hmix. unfold GLSL.mix3. cbn [GLSL.vx GLSL.vy GLSL.vz].
  split; [| split]; apply mix_is_between; exact Ha.
Qed.

Lemma customPalette_in_hull_witness :
  0 <= 0.5 < 1 /\
  0.35 <= GLSL.vx (Shader.customPalette 0.5) <= 1 /\
  0 <= GLSL.vy (Shader.customPalette 0.5) <= 0.6 /\
  0 <= GLSL.vz (Shader.customPalette 0.5) <= 0.2.
Proof.
  assert (H : 0 <= 0.5 < 1) by lra.
  split; [exact H |].
  exact (proj1 (proj2 (customPalette_in_hull 0.5 H))).
Defined.

(** ** The fragment shader: what the colour depends on *)

Section Fragment.

Import GLSL Shader.

(** Without hovering the local position is not read. *)
Lemma main_unhovered (inp : FragmentInput) (out : FragmentOutput) :
  isHovered inp <= 0 ->
  rgb (gl_FragColor (main inp out)) =
  vscale (vadd (customPalette (mod_ (randomValue inp + time inp * 0.1) 1.0))
               (scalev ((1.0 - dot (viewDirectionOf inp) (vNormal inp)) ^ 3 * 0.5)
                       (mkvec3 0.3 0.1 0.1)))
         (0.8 + 0.2 * sin (time inp * 2.0 + index inp * 0.5)).
Proof.
  intros H. unfold main. rewrite Rgtb_false by lra. reflexivity.
Qed.

(** The palette is always asked for a phase of the unit interval. *)
Lemma mod_unit (x : R) : 0 <= mod_ x 1.0 < 1.
Proof.
  unfold mod_, floor.
  pose proof (Zfloor_bound (x / 1.0)) as Hb.
  replace (x / 1.0) with x in * by lra. lra.
Qed.

Lemma customPalette_0 : customPalette 0 = c0.
Proof.
  unfold customPalette.
  rewrite (smoothstep_below 0.0 0.2 0), (smoothstep_below 0.2 0.4 0),
    (smoothstep_below 0.4 0.6 0), (smoothstep_below 0.6 0.8 0),
    (smoothstep_below 0.8 1.0 0) by lra.
  rewrite !mix3_0. reflexivity.
Qed.

Lemma length_unit_x : length (mkvec3 1 0 0) = 1.
Proof.
  unfold length, dot. cbn [vx vy vz].
  replace (1 * 1 + 0 * 0 + 0 * 0) with 1 by ring. apply sqrt_1.
Qed.

Lemma viewDirection_unit_x :
  normalize (vsub (mkvec3 1 0 0) (mkvec3 0 0 0)) = mkvec3 1 0 0.
Proof.
  unfold vsub. cbn [vx vy vz].
  replace (1 - 0) with 1 by ring. replace (0 - 0) with 0 by ring.
  unfold normalize. rewrite length_unit_x. cbn [vx vy vz].
  f_equal; lra.
Qed.

Lemma mod_0 : mod_ (0 + 0 * 0.1) 1.0 = 0.
Proof.
  unfold mod_, floor.
  replace ((0 + 0 * 0.1) / 1.0) with (IZR 0) by lra.
  rewrite ZfloorZ. lra.
Qed.

(** The fog grows strictly with the distance from the centre of the cube. *)
Lemma fogFactor_increasing (d1 d2 density : R) :
  0 <= d1 < d2 -> 0 < density ->
  fogFactor d1 density < fogFactor d2 density.
Proof.
  intros Hd Hk. unfold fogFactor.
  assert (H12 : exp (- d2 * density) < exp (- d1 * density))
    by (apply exp_increasing; nra).
  assert (H1 : exp (- d1 * density) <= 1).
  { rewrite <- exp_0. destruct (Req_dec d1 0) as [-> | Hne].
    - replace (- 0 * density) with 0 by ring. apply Rle_refl.
    - left. apply exp_increasing. nra. }
  pose proof (exp_pos (- d2 * density)) as Hpos.
  split_cmp; lra.
Qed.

(** Two points of the same face of a cube of side 0.5: its centre and one
    of its corners. *)
Lemma face_centre_nearer_than_corner :
  0 <= length (mkvec3 0.25 0 0) < length (mkvec3 0.25 0.25 0.25).
Proof.
  unfold length, dot. cbn [vx vy vz]. split.
  - apply sqrt_pos.
  - apply sqrt_lt_1_alt. lra.
Qed.

(** The red channel written for a hovered fragment that faces the camera,
    at time 0 and phase 0, as a function of the local position. *)
Lemma hovered_red (p : vec3) (out : FragmentOutput) :
  vx (rgb (gl_FragColor
             (main (mkFragmentInput (mkvec3 0 0 0) 0 0 0 1 (mkvec2 0 0)
                                    p (mkvec3 1 0 0) (mkvec3 0 0 0)
                                    (mkvec3 1 0 0))
                   out))) =
  0.28 + 0.72 * (fogFactor (length p) 2 * 0.8) + 0.4.
Proof.
  unfold main, hoverGlow, viewDirectionOf.
  cbn [gl_FragColor rgb color time index randomValue isHovered vUv vPosition
       vNormal vWorldPosition cameraPosition].
  rewrite Rgtb_true by lra.
  rewrite viewDirection_unit_x, mod_0, customPalette_0.
  replace (0 * 2.0 + 0 * 0.5) with 0 by lra.
  replace (0 * 3.0) with 0 by lra.
  replace (0 * 4.0) with 0 by lra.
  replace (0 * 5.0) with 0 by lra.
  rewrite sin_0.
  replace (2.0 + 0 * 0.5) with 2 by lra.
  unfold dot, c0.
  cbn [vx vy vz vadd vscale scalev mix3].
  unfold mix. cbn [pow]. lra.
Qed.

End Fragment.

(** C6, the claim as stated, refuted.  Two invocations that agree on the
    time, the phase [randomValue], the index, the camera and world positions
    (hence the view vector), the normal and the hover strength, and even on
    the unused [color] and [vUv], write different colours when the fragment
    is hovered and their local positions [vPosition] differ (here the centre
    and a corner of a face of the cube): the fog of the hover branch is
    computed from [length(vPosition)]. *)
Lemma main_reads_vPosition :
  let inp1 :=
    Shader.mkFragmentInput (GLSL.mkvec3 0 0 0) 0 0 0 1 (GLSL.mkvec2 0 0)
      (GLSL.mkvec3 0.25 0 0) (GLSL.mkvec3 1 0 0) (GLSL.mkvec3 0 0 0)
      (GLSL.mkvec3 1 0 0) in
  let inp2 :=
    Shader.mkFragmentInput (GLSL.mkvec3 0 0 0) 0 0 0 1 (GLSL.mkvec2 0 0)
      (GLSL.mkvec3 0.25 0.25 0.25) (GLSL.mkvec3 1 0 0) (GLSL.mkvec3 0 0 0)
      (GLSL.mkvec3 1 0 0) in
  let out := Shader.mkFragmentOutput (GLSL.mkvec4 (GLSL.mkvec3 0 0 0) 0) in
  Shader.time inp1 = Shader.time inp2 /\
  Shader.randomValue inp1 = Shader.randomValue inp2 /\
  Shader.index inp1 = Shader.index inp2 /\
  Shader.cameraPosition inp1 = Shader.cameraPosition inp2 /\
  Shader.vWorldPosition inp1 = Shader.vWorldPosition inp2 /\
  Shader.viewDirectionOf inp1 = Shader.viewDirectionOf inp2 /\
  Shader.vNormal inp1 = Shader.vNormal inp2 /\
  Shader.isHovered inp1 = Shader.isHovered inp2 /\
  Shader.color inp1 = Shader.color inp2 /\
  Shader.vUv inp1 = Shader.vUv inp2 /\
  Shader.main inp1 out <> Shader.main inp2 out.
Proof.
  cbv zeta. repeat (split; [reflexivity |]).
  intros H.
  apply (f_equal (fun o => GLSL.vx (GLSL.rgb (Shader.gl_FragColor o)))) in H.
  rewrite !hovered_red in H.
  pose proof (fogFactor_increasing _ _ 2 face_centre_nearer_than_corner) as Hfog.
  lra.
Qed.

(** C6, amended.  The fragment computation is a function of the time, the
    phase [randomValue], the index, the view vector, the normal, the hover
    strength and the local position [vPosition] of the fragment: two
    invocations that agree on these write the same colour, whatever the
    output held before and whatever the unused [color] and [vUv] are. *)
Theorem main_deterministic (inp1 inp2 : Shader.FragmentInput)
        (out1 out2 : Shader.FragmentOutput) :
  Shader.time inp1 = Shader.time inp2 ->
  Shader.randomValue inp1 = Shader.randomValue inp2 ->
  Shader.index inp1 = Shader.index inp2 ->
  Shader.viewDirectionOf inp1 = Shader.viewDirectionOf inp2 ->
  Shader.vNormal inp1 = Shader.vNormal inp2 ->
  Shader.isHovered inp1 = Shader.isHovered inp2 ->
  Shader.vPosition inp1 = Shader.vPosition inp2 ->
  Shader.main inp1 out1 = Shader.main inp2 out2.
Proof.
  intros Ht Hr Hi Hv Hn Hh Hp.
  unfold Shader.main, Shader.hoverGlow.
  rewrite Ht, Hr, Hi, Hv, Hn, Hh, Hp. reflexivity.
Qed.

Lemma main_deterministic_witness :
  let inp1 :=
    Shader.mkFragmentInput (GLSL.mkvec3 0 0 0) 2 3 0.5 1 (GLSL.mkvec2 0 0)
      (GLSL.mkvec3 0.25 0 0) (GLSL.mkvec3 1 0 0) (GLSL.mkvec3 0 0 0)
      (GLSL.mkvec3 12 12 12) in
  let inp2 :=
    Shader.mkFragmentInput (GLSL.mkvec3 0 0.5 1) 2 3 0.5 1 (GLSL.mkvec2 1 1)
      (GLSL.mkvec3 0.25 0 0) (GLSL.mkvec3 1 0 0) (GLSL.mkvec3 0 0 0)
      (GLSL.mkvec3 12 12 12) in
  Shader.main inp1 (Shader.mkFragmentOutput (GLSL.mkvec4 (GLSL.mkvec3 0 0 0) 0)) =
  Shader.main inp2 (Shader.mkFragmentOutput (GLSL.mkvec4 (GLSL.mkvec3 1 1 1) 1)).
Proof.
  intros inp1 inp2.
  exact (main_deterministic inp1 inp2 _ _
           eq_refl eq_refl eq_refl eq_refl eq_refl eq_refl eq_refl).
Defined.

(** ** [Cube]: hovering *)

Lemma set_cursor_twice (doc : Document) (a b : string) :
  set_cursor (set_cursor doc a) b = set_cursor doc b.
Proof. reflexivity. Qed.

Lemma handlePointerOver_idempotent (s : Cube.State * Document) :
  Cube.handle Cube.pointerover (Cube.handle Cube.pointerover s) =
  Cube.handle Cube.pointerover s.
Proof. reflexivity. Qed.

Lemma handlePointerOut_idempotent (s : Cube.State * Document) :
  Cube.handle Cube.pointerout (Cube.handle Cube.pointerout s) =
  Cube.handle Cube.pointerout s.
Proof. reflexivity. Qed.

(** One enter or many: the state reached is the same. *)
Lemma run_pointerovers (n : nat) (st : Cube.State) (doc : Document) :
  Cube.run (repeat Cube.pointerover (S n)) (st, doc) =
  (Cube.mkState true, set_cursor doc "pointer").
Proof.
  revert st doc. induction n as [| n IH]; intros st doc.
  - reflexivity.
  - change (Cube.run (repeat Cube.pointerover (S (S n))) (st, doc))
      with (Cube.run (repeat Cube.pointerover (S n))
                     (Cube.handle Cube.pointerover (st, doc))).
    unfold Cube.handle, Cube.handlePointerOver. cbn [fst snd].
    rewrite IH. rewrite set_cursor_twice. reflexivity.
Qed.

Lemma run_app (evs evs' : list Cube.PointerEvent) (s : Cube.State * Document) :
  Cube.run (evs ++ evs') s = Cube.run evs' (Cube.run evs s).
Proof. unfold Cube.run. apply fold_left_app. Qed.

(** The cursor is one global: a pointer-exit on one cube resets it even while
    another cube is still hovered. *)
Lemma cursor_is_shared (a b : Cube.State) (doc : Document) :
  let (a1, doc1) := Cube.handlePointerOver a doc in
  let (b1, doc2) := Cube.handlePointerOver b doc1 in
  let (a2, doc3) := Cube.handlePointerOut a1 doc2 in
  Cube.hovered b1 = true /\ Cube.hovered a2 = false /\
  cursor doc3 = "auto"%string.
Proof. cbn. repeat split. Qed.

(** C7.  Hovering is a set and a clear.  After one or more pointer-enter
    events with no exit in between, the cube is hovered and the cursor is
    [pointer], from whatever state the cube and the document were in; one
    pointer-exit then leaves the cube not hovered and the cursor [auto], the
    default.  Repeating either handler changes nothing more, and the rest of
    the document is untouched. *)
Theorem Cube_hover_set_clear (n : nat) (st : Cube.State) (doc : Document) :
  let entered := Cube.run (repeat Cube.pointerover (S n)) (st, doc) in
  let exited :=
    Cube.run (repeat Cube.pointerover (S n) ++ [Cube.pointerout]) (st, doc) in
  (Cube.hovered (fst entered) = true /\
   cursor (snd entered) = "pointer"%string) /\
  (Cube.hovered (fst exited) = false /\ cursor (snd exited) = "auto"%string) /\
  entered = Cube.handle Cube.pointerover (st, doc) /\
  exited = Cube.handle Cube.pointerout (st, doc) /\
  fullscreenElement (snd entered) = fullscreenElement doc /\
  fullscreenElement (snd exited) = fullscreenElement doc.
Proof.
  cbv zeta. rewrite run_app, run_pointerovers.
  repeat split.
Qed.

(** ** Loops over the random source *)

(** An invariant of the loop body is an invariant of the loop. *)
Lemma foldM_invariant {A S} (I : S -> Prop) (body : S -> A -> Rand S)
      (entropy : nat -> R) :
  (forall acc x k, I acc -> I (fst (body acc x entropy k))) ->
  forall xs acc k, I acc -> I (fst (foldM body acc xs entropy k)).
Proof.
  intros Hbody xs. induction xs as [| x xs IH]; intros acc k Hacc.
  - exact Hacc.
  - cbn [foldM]. unfold bind.
    specialize (Hbody acc x k Hacc).
    destruct (body acc x entropy k) as [acc' k'].
    apply IH. exact Hbody.
Qed.

(** A body that grows the array by [c] elements grows it by [c] per round. *)
Lemma foldM_length {A B} (c : nat) (body : list B -> A -> Rand (list B))
      (entropy : nat -> R) :
  (forall acc x k,
      List.length (fst (body acc x entropy k)) = (List.length acc + c)%nat) ->
  forall xs acc k,
    List.length (fst (foldM body acc xs entropy k)) =
    (List.length acc + c * List.length xs)%nat.
Proof.
  intros Hbody xs. induction xs as [| x xs IH]; intros acc k.
  - cbn. lia.
  - cbn [foldM]. unfold bind.
    specialize (Hbody acc x k).
    destruct (body acc x entropy k) as [acc' k'].
    rewrite IH. cbn [fst] in Hbody. rewrite Hbody. cbn [List.length]. lia.
Qed.

(** ** [Tower]: the frame callback *)

(** The ease-out curve on the unit interval. *)
Lemma pow4_unit (q : R) : 0 <= q <= 1 -> 0 <= q ^ 4 <= 1.
Proof.
  intros [H0 H1]. split.
  - apply pow_le. exact H0.
  - rewrite <- (pow1 4). apply pow_incr. split; assumption.
Qed.

Lemma easeOutQuart_range (p : R) : 0 <= p <= 1 -> 0 <= 1 - (1 - p) ^ 4 <= 1.
Proof.
  intros Hp. assert (Hq : 0 <= (1 - p) ^ 4 <= 1) by (apply pow4_unit; lra). lra.
Qed.

Lemma easeOutQuart_monotone (p q : R) :
  0 <= p -> p <= q -> q <= 1 -> 1 - (1 - p) ^ 4 <= 1 - (1 - q) ^ 4.
Proof.
  intros H0 Hpq H1.
  assert (H : (1 - q) ^ 4 <= (1 - p) ^ 4) by (apply pow_incr; lra).
  lra.
Qed.

Section TowerFrame.

Variable props : Tower.Props.
Variable startTime : Z.

Ltac name_elapsedTime now :=
  unfold Tower.useFrame;
  fold (Tower.sinceMount startTime now);
  fold (Tower.elapsedTime props startTime now).

(** The three branches of the callback. *)
Lemma useFrame_zero (now : Z) (visible : bool) (g : Tower.Group) :
  Tower.elapsedTime props startTime now < 0 \/ visible = false ->
  Tower.useFrame props startTime now visible (Some g) =
  Some (Tower.set_scale_y g 0).
Proof.
  intros H. name_elapsedTime now.
  destruct H as [Hlt | Hvis].
  - rewrite Rltb_true by exact Hlt. reflexivity.
  - subst visible. rewrite orb_true_r. reflexivity.
Qed.

Lemma useFrame_grown (now : Z) (g : Tower.Group) :
  1.5 < Tower.elapsedTime props startTime now ->
  Tower.useFrame props startTime now true (Some g) =
  Some (Tower.set_scale_y g 1).
Proof.
  intros H. name_elapsedTime now.
  rewrite Rltb_false by lra. rewrite Rgtb_true by exact H. reflexivity.
Qed.

Lemma useFrame_growing (now : Z) (g : Tower.Group) :
  0 <= Tower.elapsedTime props startTime now <= 1.5 ->
  Tower.useFrame props startTime now true (Some g) =
  Some (Tower.set_scale_y g
          (1 - (1 - Rmin (Tower.elapsedTime props startTime now / 1.5) 1) ^ 4)).
Proof.
  intros H. name_elapsedTime now.
  rewrite Rltb_false by lra. rewrite Rgtb_false by lra. reflexivity.
Qed.

Lemma useFrame_unmounted (now : Z) (visible : bool) :
  Tower.useFrame props startTime now visible None = None.
Proof. reflexivity. Qed.

(** On a mounted group the callback never fails and only touches
    [scale.y]. *)
Lemma useFrame_mounted (now : Z) (visible : bool) (g : Tower.Group) :
  exists s, Tower.useFrame props startTime now visible (Some g) =
            Some (Tower.set_scale_y g s).
Proof.
  unfold Tower.useFrame.
  destruct (Rltb _ 0 || negb visible); [eexists; reflexivity |].
  destruct (Rgtb _ 1.5); eexists; reflexivity.
Qed.

(** The value written while visible, as a function of the time. *)
Lemma useFrame_visible_value (now : Z) (g : Tower.Group) :
  0 <= Tower.elapsedTime props startTime now ->
  Tower.useFrame props startTime now true (Some g) =
  Some (Tower.set_scale_y g
          (1 - (1 - Rmin (Tower.elapsedTime props startTime now / 1.5) 1) ^ 4)).
Proof.
  intros H0.
  destruct (Rle_or_lt (Tower.elapsedTime props startTime now) 1.5) as [Hle | Hgt].
  - apply useFrame_growing. lra.
  - rewrite useFrame_grown by exact Hgt.
    rewrite Rmin_right by lra.
    replace (1 - 1) with 0 by lra. rewrite pow_i by lia.
    replace (1 - 0) with 1 by lra. reflexivity.
Qed.

End TowerFrame.

(** What a frame leaves in [scale.y], read back from the group. *)
Lemma scale_y_written (g : Tower.Group) (v : R) :
  option_map Tower.scale_y (Some (Tower.set_scale_y g v)) = Some v.
Proof. reflexivity. Qed.

(** C2.  While a visible tower is growing ([delay <= elapsed < delay + 1.5],
    [elapsed] the seconds since mount), the [scale.y] read back after a frame
    is [1 - (1 - p)^4] with [p = clamp((elapsed - delay) / 1.5, 0, 1)]; from
    [delay] on, the [scale.y] after a later frame is never smaller than after
    an earlier one; at [elapsed = delay + 1.5] it is exactly 1, and it is 1
    after every later frame. *)
Theorem Tower_growth (props : Tower.Props) (startTime : Z) :
  let d := Tower.delay props in
  let elapsed := Tower.sinceMount startTime in
  let scale_y_after := fun (now : Z) (g : Tower.Group) =>
        option_map Tower.scale_y
                   (Tower.useFrame props startTime now true (Some g)) in
  (forall now g,
      d <= elapsed now < d + 1.5 ->
      scale_y_after now g =
      Some (1 - (1 - Rmin (Rmax ((elapsed now - d) / 1.5) 0) 1) ^ 4)) /\
  (forall now1 now2 g1 g2,
      d <= elapsed now1 -> elapsed now1 <= elapsed now2 ->
      exists s1 s2,
        scale_y_after now1 g1 = Some s1 /\
        scale_y_after now2 g2 = Some s2 /\
        s1 <= s2) /\
  (forall now g, elapsed now = d + 1.5 -> scale_y_after now g = Some 1) /\
  (forall now g, d + 1.5 < elapsed now -> scale_y_after now g = Some 1).
Proof.
  cbv zeta.
  split; [| split; [| split]].
  - intros now g H.
    rewrite useFrame_growing by (unfold Tower.elapsedTime; lra).
    rewrite scale_y_written. unfold Tower.elapsedTime.
    rewrite (Rmax_left _ 0) by lra.
    reflexivity.
  - intros now1 now2 g1 g2 H1 H12.
    rewrite !useFrame_visible_value by (unfold Tower.elapsedTime; lra).
    rewrite !scale_y_written.
    eexists. eexists.
    split; [reflexivity |]. split; [reflexivity |].
    unfold Tower.elapsedTime.
    apply easeOutQuart_monotone.
    + apply Rmin_glb; lra.
    + apply Rle_min_compat_r. lra.
    + apply Rmin_r.
  - intros now g H.
    rewrite useFrame_growing by (unfold Tower.elapsedTime; lra).
    rewrite scale_y_written. unfold Tower.elapsedTime. rewrite H.
    replace ((Tower.delay props + 1.5 - Tower.delay props) / 1.5) with 1 by lra.
    rewrite Rmin_left by lra.
    replace (1 - 1) with 0 by lra. rewrite pow_i by lia.
    replace (1 - 0) with 1 by lra. reflexivity.
  - intros now g H.
    rewrite useFrame_grown by (unfold Tower.elapsedTime; lra).
    apply scale_y_written.
Qed.

Lemma Tower_growth_witness :
  let props := Tower.mkProps (0, -2, 0) 0.5 1 0.5 in
  let g := Tower.mkGroup 1 0.25 1 in
  let elapsed := Tower.sinceMount 0 in
  let scale_y_after := fun (now : Z) =>
        option_map Tower.scale_y (Tower.useFrame props 0 now true (Some g)) in
  (0.5 <= elapsed 1000%Z < 0.5 + 1.5 /\
   scale_y_after 1000%Z =
   Some (1 - (1 - Rmin (Rmax ((elapsed 1000%Z - 0.5) / 1.5) 0) 1) ^ 4)) /\
  (0.5 <= elapsed 1000%Z /\ elapsed 1000%Z <= elapsed 1500%Z /\
   exists s1 s2,
     scale_y_after 1000%Z = Some s1 /\ scale_y_after 1500%Z = Some s2 /\
     s1 <= s2) /\
  (elapsed 2000%Z = 0.5 + 1.5 /\ scale_y_after 2000%Z = Some 1) /\
  (0.5 + 1.5 < elapsed 3000%Z /\ scale_y_after 3000%Z = Some 1).
Proof.
  intros props g elapsed scale_y_after.
  destruct (Tower_growth props 0) as (Hgrow & Hmono & Hend & Hlate).
  assert (E1 : 0.5 <= elapsed 1000%Z < 0.5 + 1.5)
    by (unfold elapsed, Tower.sinceMount; simpl; lra).
  assert (E2 : elapsed 1000%Z <= elapsed 1500%Z)
    by (unfold elapsed, Tower.sinceMount; simpl; lra).
  assert (E3 : elapsed 2000%Z = 0.5 + 1.5)
    by (unfold elapsed, Tower.sinceMount; simpl; lra).
  assert (E4 : 0.5 + 1.5 < elapsed 3000%Z)
    by (unfold elapsed, Tower.sinceMount; simpl; lra).
  split; [split; [exact E1 | exact (Hgrow 1000%Z g E1)] |].
  split; [split; [exact (proj1 E1) |
                  split; [exact E2 |
                          exact (Hmono 1000%Z 1500%Z g g (proj1 E1) E2)]] |].
  split; [split; [exact E3 | exact (Hend 2000%Z g E3)] |].
  split; [exact E4 | exact (Hlate 3000%Z g E4)].
Defined.

(** C3.  A frame of a hidden tower ([visible] is false) sets [scale.y] to 0,
    whatever the time, the delay and the scale the group had: the test comes
    before the growth branches. *)
Theorem Tower_hidden_scale_zero (props : Tower.Props) (startTime now : Z)
        (g : Tower.Group) :
  Tower.useFrame props startTime now false (Some g) =
  Some (Tower.set_scale_y g 0) /\
  option_map Tower.scale_y
             (Tower.useFrame props startTime now false (Some g)) = Some 0.
Proof.
  assert (H : Tower.useFrame props startTime now false (Some g) =
              Some (Tower.set_scale_y g 0))
    by (apply useFrame_zero; right; reflexivity).
  split; [exact H | rewrite H; reflexivity].
Qed.

(** C9.  After every frame of a mounted tower the [scale.y] read back from
    the group lies in [[0, 1]], whatever it was before: with [e] the seconds
    since mount less the delay, it is 0 when [e < 0] or the tower is hidden,
    1 when the tower is visible and [e > 1.5], and [1 - (1 - p)^4] with
    [p = min(e / 1.5, 1)] in [[0, 1]] otherwise.  [scale.x] and [scale.z]
    are as they were. *)
Theorem Tower_scale_bounds (props : Tower.Props) (startTime now : Z)
        (visible : bool) (g : Tower.Group) :
  let e := Tower.elapsedTime props startTime now in
  let p := Rmin (e / 1.5) 1 in
  exists g',
    Tower.useFrame props startTime now visible (Some g) = Some g' /\
    0 <= Tower.scale_y g' <= 1 /\
    (((e < 0 \/ visible = false) /\ Tower.scale_y g' = 0) \/
     (visible = true /\ 1.5 < e /\ Tower.scale_y g' = 1) \/
     (visible = true /\ 0 <= e <= 1.5 /\ 0 <= p <= 1 /\
      Tower.scale_y g' = 1 - (1 - p) ^ 4)) /\
    Tower.scale_x g' = Tower.scale_x g /\
    Tower.scale_z g' = Tower.scale_z g.
Proof.
  intros e p.
  destruct (Rlt_or_le e 0) as [Hneg | Hpos].
  { eexists. split; [apply useFrame_zero; left; exact Hneg |].
    cbn [Tower.set_scale_y Tower.scale_x Tower.scale_y Tower.scale_z].
    split; [lra |]. split; [| split; reflexivity].
    left. split; [left; exact Hneg | reflexivity]. }
  destruct visible.
  2:{ eexists. split; [apply useFrame_zero; right; reflexivity |].
      cbn [Tower.set_scale_y Tower.scale_x Tower.scale_y Tower.scale_z].
      split; [lra |]. split; [| split; reflexivity].
      left. split; [right; reflexivity | reflexivity]. }
  destruct (Rle_or_lt e 1.5) as [Hle | Hgt].
  - eexists. split; [apply useFrame_growing; fold e; lra |]. fold e. fold p.
    cbn [Tower.set_scale_y Tower.scale_x Tower.scale_y Tower.scale_z].
    assert (Hp : 0 <= p <= 1)
      by (unfold p; split; [apply Rmin_glb; lra | apply Rmin_r]).
    split; [apply easeOutQuart_range; exact Hp |].
    split; [| split; reflexivity].
    right. right.
    split; [reflexivity |]. split; [lra |]. split; [exact Hp | reflexivity].
  - eexists. split; [apply useFrame_grown; exact Hgt |].
    cbn [Tower.set_scale_y Tower.scale_x Tower.scale_y Tower.scale_z].
    split; [lra |]. split; [| split; reflexivity].
    right. left. split; [reflexivity |]. split; [exact Hgt | reflexivity].
Qed.

(** ** [Tower]: the cubes *)

(** A loop whose body pushes one element per round: the projections of the
    array that do not depend on the random source. *)
Lemma foldM_push_map {A B C} (f : B -> C) (g : A -> C)
      (body : list B -> A -> Rand (list B)) (entropy : nat -> R) :
  (forall acc x k, exists e,
        fst (body acc x entropy k) = acc ++ [e] /\ f e = g x) ->
  forall xs acc k,
    map f (fst (foldM body acc xs entropy k)) = map f acc ++ map g xs.
Proof.
  intros Hbody xs. induction xs as [| x xs IH]; intros acc k.
  - cbn. rewrite app_nil_r. reflexivity.
  - cbn [foldM]. unfold bind.
    destruct (Hbody acc x k) as (e & Hrun & He).
    destruct (body acc x entropy k) as [acc' k'].
    cbn [fst] in Hrun. subst acc'.
    rewrite IH. rewrite map_app. cbn [map]. rewrite He.
    rewrite <- app_assoc. reflexivity.
Qed.

Lemma range_length (n : Z) : List.length (Tower.range n) = Z.to_nat n.
Proof. unfold Tower.range. rewrite length_map, length_seq. reflexivity. Qed.

Lemma range_nth (n : Z) (i : nat) :
  (i < Z.to_nat n)%nat -> nth_error (Tower.range n) i = Some (Z.of_nat i).
Proof.
  intros Hi. unfold Tower.range.
  rewrite nth_error_map, nth_error_seq.
  destruct (Nat.ltb_spec i (Z.to_nat n)) as [_ | Hge]; [reflexivity | lia].
Qed.

(** Where the cubes of a tower sit and how they are numbered. *)
Lemma cubeElements_layout (props : Tower.Props) (entropy : nat -> R) (k : nat) :
  map (fun c => (Cube.key c, Cube.index c, Cube.position c, Cube.color c))
      (fst (Tower.cubeElements props entropy k)) =
  map (fun i => (i, i,
                 (at0 (Tower.position props),
                  at1 (Tower.position props) + IZR i * 0.5,
                  at2 (Tower.position props)),
                 0x006FEE%Z))
      (Tower.range (Tower.numCubes props)).
Proof.
  unfold Tower.cubeElements.
  rewrite (foldM_push_map _
             (fun i => (i, i,
                        (at0 (Tower.position props),
                         at1 (Tower.position props) + IZR i * 0.5,
                         at2 (Tower.position props)),
                        0x006FEE%Z))).
  - reflexivity.
  - intros acc i k'. unfold bind, gaussianRandom, Math_random, ret.
    eexists. split; reflexivity.
Qed.

Lemma cubeElements_length (props : Tower.Props) (entropy : nat -> R) (k : nat) :
  List.length (fst (Tower.cubeElements props entropy k)) =
  Z.to_nat (Tower.numCubes props).
Proof.
  rewrite <- (length_map
                (fun c => (Cube.key c, Cube.index c, Cube.position c, Cube.color c))).
  rewrite cubeElements_layout, length_map. apply range_length.
Qed.

Lemma cubeElements_nth (props : Tower.Props) (entropy : nat -> R) (k i : nat) :
  (i < List.length (fst (Tower.cubeElements props entropy k)))%nat ->
  exists c,
    nth_error (fst (Tower.cubeElements props entropy k)) i = Some c /\
    Cube.index c = Z.of_nat i /\
    Cube.position c =
    (at0 (Tower.position props),
     at1 (Tower.position props) + IZR (Z.of_nat i) * 0.5,
     at2 (Tower.position props)).
Proof.
  intros Hi.
  pose proof (cubeElements_layout props entropy k) as Hlay.
  apply (f_equal (fun l => nth_error l i)) in Hlay.
  rewrite !nth_error_map in Hlay.
  rewrite cubeElements_length in Hi.
  rewrite (range_nth _ _ Hi) in Hlay.
  destruct (nth_error (fst (Tower.cubeElements props entropy k)) i) as [c |];
    cbn in Hlay; [| discriminate].
  exists c. split; [reflexivity |].
  injection Hlay as Hkey Hidx Hpos Hcol.
  split; [exact Hidx | exact Hpos].
Qed.

Lemma numCubes_of_height (props : Tower.Props) (n : Z) :
  IZR n <= Tower.height props * 8 < IZR n + 1 -> Tower.numCubes props = n.
Proof. intros H. unfold Tower.numCubes, Math_floor. apply Zfloor_eq. exact H. Qed.

Lemma numCubes_nonneg (props : Tower.Props) :
  0 <= Tower.height props -> (0 <= Tower.numCubes props)%Z.
Proof.
  intros H. unfold Tower.numCubes, Math_floor.
  apply Zfloor_lub. simpl. lra.
Qed.

(** A height below zero (never passed by [Towers]) has a negative floor, and
    the loop does not run. *)
Lemma cubeElements_negative_height (props : Tower.Props) (entropy : nat -> R)
      (k : nat) :
  Tower.height props < 0 ->
  (Tower.numCubes props < 0)%Z /\
  fst (Tower.cubeElements props entropy k) = [].
Proof.
  intros H.
  assert (Hn : (Tower.numCubes props < 0)%Z).
  { unfold Tower.numCubes, Math_floor.
    pose proof (Zfloor_bound (Tower.height props * 8)) as [Hlo _].
    apply lt_IZR. simpl. lra. }
  split; [exact Hn |].
  apply length_zero_iff_nil. rewrite cubeElements_length. lia.
Qed.

(** C5.  A tower of non-negative height creates [floor(height * 8)] cubes:
    4, 8 and 20 of them at the heights 0.5, 1.0 and 2.5.  The cube of index
    [i] sits [i * 0.5] above the base position of the tower, with the same
    x and z. *)
Theorem Tower_cubes (props : Tower.Props) (entropy : nat -> R) (k : nat) :
  let cubes := fst (Tower.cubeElements props entropy k) in
  List.length cubes = Z.to_nat (Math_floor (Tower.height props * 8)) /\
  (0 <= Tower.height props ->
   Z.of_nat (List.length cubes) = Math_floor (Tower.height props * 8)) /\
  (Tower.height props = 0.5 -> List.length cubes = 4%nat) /\
  (Tower.height props = 1.0 -> List.length cubes = 8%nat) /\
  (Tower.height props = 2.5 -> List.length cubes = 20%nat) /\
  (forall i, (i < List.length cubes)%nat ->
     exists c,
       nth_error cubes i = Some c /\
       Cube.index c = Z.of_nat i /\
       Cube.position c =
       (at0 (Tower.position props),
        at1 (Tower.position props) + IZR (Z.of_nat i) * 0.5,
        at2 (Tower.position props))).
Proof.
  cbv zeta.
  split; [| split; [| split; [| split; [| split]]]].
  - apply cubeElements_length.
  - intros H. rewrite cubeElements_length.
    rewrite Z2Nat.id by (apply numCubes_nonneg; exact H). reflexivity.
  - intros H. rewrite cubeElements_length.
    rewrite (numCubes_of_height props 4); [reflexivity | rewrite H; simpl; lra].
  - intros H. rewrite cubeElements_length.
    rewrite (numCubes_of_height props 8); [reflexivity | rewrite H; simpl; lra].
  - intros H. rewrite cubeElements_length.
    rewrite (numCubes_of_height props 20); [reflexivity | rewrite H; simpl; lra].
  - intros i Hi. apply cubeElements_nth. exact Hi.
Qed.

Lemma Tower_cubes_witness :
  let entropy := fun _ : nat => 0 in
  let low := Tower.mkProps (0, -2, 0) 0 0.5 0.5 in
  let mid := Tower.mkProps (0, -2, 0) 0 1.0 0.5 in
  let high := Tower.mkProps (0, -2, 0) 0 2.5 0.5 in
  (0 <= Tower.height low /\
   Z.of_nat (List.length (fst (Tower.cubeElements low entropy 0%nat))) =
   Math_floor (Tower.height low * 8)) /\
  List.length (fst (Tower.cubeElements low entropy 0%nat)) = 4%nat /\
  List.length (fst (Tower.cubeElements mid entropy 0%nat)) = 8%nat /\
  List.length (fst (Tower.cubeElements high entropy 0%nat)) = 20%nat /\
  exists c,
    nth_error (fst (Tower.cubeElements low entropy 0%nat)) 3 = Some c /\
    Cube.index c = 3%Z /\
    Cube.position c = (0, -2 + IZR 3 * 0.5, 0).
Proof.
  intros entropy low mid high.
  destruct (Tower_cubes low entropy 0%nat) as (_ & Hcount & Hlow & _ & _ & Hnth).
  destruct (Tower_cubes mid entropy 0%nat) as (_ & _ & _ & Hmid & _ & _).
  destruct (Tower_cubes high entropy 0%nat) as (_ & _ & _ & _ & Hhigh & _).
  assert (H0 : 0 <= Tower.height low) by (simpl; lra).
  pose proof (Hlow eq_refl) as L4.
  assert (H3 : (3 < List.length (fst (Tower.cubeElements low entropy 0%nat)))%nat)
    by (rewrite L4; lia).
  split; [split; [exact H0 | exact (Hcount H0)] |].
  split; [exact L4 |].
  split; [exact (Hmid eq_refl) |].
  split; [exact (Hhigh eq_refl) |].
  exact (Hnth 3%nat H3).
Defined.

(** ** [Towers] *)

(** [Math.max(0.5, a)] is at least 0.5 whenever it is a number at all. *)
Lemma Math_max_floor (a : number) :
  a <> NaN -> num_le (Fin 0.5) (Math_max (Fin 0.5) a).
Proof.
  destruct a as [r | | |]; intros Ha; cbn.
  - apply Rmax_l.
  - exact I.
  - apply Rle_refl.
  - congruence.
Qed.

(** The grid arithmetic stays inside the domain of the real functions used
    for it: the square root is taken of a sum of squares and the divisor
    [maxDistance] is positive. *)
Lemma Towers_maxDistance_pos : 0 < sqrt 2 * INR Towers.size / 2.
Proof.
  assert (H2 : 0 < sqrt 2) by (apply sqrt_lt_R0; lra).
  assert (Hs : INR Towers.size = 12) by (unfold Towers.size; simpl; lra).
  rewrite Hs. lra.
Qed.

Lemma Towers_distance_arg_nonneg (x z : nat) :
  0 <= (INR x - (INR Towers.size / 2 - 0.5)) ^ 2
       + (INR z - (INR Towers.size / 2 - 0.5)) ^ 2.
Proof. apply Rplus_le_le_0_compat; apply pow2_ge_0. Qed.

(** Every round of the inner loop pushes exactly one element. *)
Lemma cell_pushes_one (towers : list Towers.Element) (x z : nat)
      (entropy : nat -> R) (k : nat) :
  exists e,
    Towers.cell towers x z entropy k = (towers ++ [e], (4 + k)%nat) /\
    Towers.key e = (x, z) /\
    Towers.delay e = (INR x + INR z) * 0.08 /\
    exists noise, Towers.height e = Math_max (Fin 0.5) noise.
Proof.
  unfold Towers.cell, gaussianRandom, bind, Math_random, ret.
  eexists. split; [reflexivity |].
  cbn [Towers.key Towers.delay Towers.height].
  repeat split. eexists. reflexivity.
Qed.

(** With uniform samples the pushed element has a finite height, clamped
    from below, and a finite phase. *)
Lemma cell_run (towers : list Towers.Element) (x z : nat)
      (entropy : nat -> R) (k : nat) :
  uniform_source entropy ->
  exists e h rv,
    fst (Towers.cell towers x z entropy k) = towers ++ [e] /\
    Towers.height e = Fin h /\ 0.5 <= h /\
    Towers.randomValue e = Fin rv.
Proof.
  intros Hu.
  unfold Towers.cell, bind.
  rewrite (gaussianRandom_run entropy 0 0.3 k) by apply Hu.
  rewrite (gaussianRandom_run entropy 0.5 0.2 (S (S k))) by apply Hu.
  unfold ret. cbn [fst].
  eexists. eexists. eexists.
  split; [reflexivity |].
  cbn [Towers.height Towers.randomValue num_add Math_max].
  split; [reflexivity |].
  split; [apply Rmax_l | reflexivity].
Qed.

Lemma inner_loop_length (x : nat) (entropy : nat -> R)
      (acc : list Towers.Element) (k : nat) :
  List.length
    (fst (foldM (fun towers z => Towers.cell towers x z) acc
                (seq 0 Towers.size) entropy k)) =
  (List.length acc + Towers.size)%nat.
Proof.
  rewrite (foldM_length 1).
  - rewrite length_seq. lia.
  - intros acc' z k'.
    destruct (cell_pushes_one acc' x z entropy k') as (e & Hrun & _).
    rewrite Hrun. cbn [fst]. rewrite length_app. reflexivity.
Qed.

(** A property of every pushed element holds of the whole array. *)
Lemma towers_Forall (P : Towers.Element -> Prop) (entropy : nat -> R) :
  (forall acc x z k, exists e,
        fst (Towers.cell acc x z entropy k) = acc ++ [e] /\ P e) ->
  forall k, Forall P (fst (Towers.towers entropy k)).
Proof.
  intros Hcell k. unfold Towers.towers.
  apply (foldM_invariant (Forall P)); [| constructor].
  intros acc x k' Hacc.
  apply (foldM_invariant (Forall P)); [| exact Hacc].
  intros acc' z k'' Hacc'.
  destruct (Hcell acc' x z k'') as (e & Hrun & He).
  rewrite Hrun. apply Forall_app. split; [exact Hacc' |].
  constructor; [exact He | constructor].
Qed.

(** C4.  The grid composer fills its array with exactly [size * size = 144]
    tower elements, whatever [Math.random] returns.  Every height is the
    result of [Math.max(0.5, _)], and for every sequence of uniform samples
    it is a finite number that is at least 0.5. *)
Theorem Towers_grid (entropy : nat -> R) (k : nat) :
  let towers := fst (Towers.towers entropy k) in
  List.length towers = (Towers.size * Towers.size)%nat /\
  List.length towers = 144%nat /\
  Forall (fun e => exists a, Towers.height e = Math_max (Fin 0.5) a) towers /\
  (uniform_source entropy ->
   Forall (fun e => exists h, Towers.height e = Fin h /\ 0.5 <= h) towers).
Proof.
  assert (Hlen : List.length (fst (Towers.towers entropy k)) = 144%nat).
  { unfold Towers.towers. rewrite (foldM_length Towers.size).
    - rewrite length_seq. reflexivity.
    - intros acc x k'. apply inner_loop_length. }
  cbv zeta. split; [| split; [| split]].
  - rewrite Hlen. reflexivity.
  - exact Hlen.
  - apply towers_Forall. intros acc x z k'.
    destruct (cell_pushes_one acc x z entropy k') as (e & Hrun & _ & _ & Hh).
    exists e. rewrite Hrun. split; [reflexivity | exact Hh].
  - intros Hu. apply towers_Forall. intros acc x z k'.
    destruct (cell_run acc x z entropy k' Hu)
      as (e & h & rv & Hrun & Hh & Hle & _).
    exists e. split; [exact Hrun |]. exists h. split; assumption.
Qed.

Lemma Towers_grid_witness :
  let entropy := fun _ : nat => 0 in
  uniform_source entropy /\
  Forall (fun e => exists h, Towers.height e = Fin h /\ 0.5 <= h)
         (fst (Towers.towers entropy 0%nat)).
Proof.
  intros entropy.
  assert (Hu : uniform_source entropy) by (intros i; unfold entropy; lra).
  split; [exact Hu |].
  exact (proj2 (proj2 (proj2 (Towers_grid entropy 0%nat))) Hu).
Defined.

(** The clamp is what keeps the floor: whatever real the noise is, however
    negative, and even at [-Infinity], the clamped height is at least 0.5. *)
Lemma clamp_under_extreme_noise (base : R) (noise : number) :
  noise <> NaN -> noise <> PosInf ->
  exists h, Math_max (Fin 0.5) (Fin base + noise) = Fin h /\ 0.5 <= h.
Proof.
  destruct noise as [n | | |]; intros Hnan Hinf; try congruence; cbn.
  - eexists. split; [reflexivity | apply Rmax_l].
  - eexists. split; [reflexivity | apply Rle_refl].
Qed.

(** Every element of the grid can be mounted as a [Tower]. *)
Lemma Towers_all_mount (entropy : nat -> R) (k : nat) :
  uniform_source entropy ->
  Forall (fun e => exists props,
              Towers.mount e = Some props /\ 0.5 <= Tower.height props)
         (fst (Towers.towers entropy k)).
Proof.
  intros Hu. apply towers_Forall. intros acc x z k'.
  destruct (cell_run acc x z entropy k' Hu)
    as (e & h & rv & Hrun & Hh & Hle & Hrv).
  exists e. split; [exact Hrun |].
  unfold Towers.mount. rewrite Hh, Hrv.
  eexists. split; [reflexivity | exact Hle].
Qed.

(** ** [App]: the fullscreen key *)

Lemma handleKeyPress_f (platform : App.Platform) (key : string)
      (s : App.State * Document) :
  key = "f"%string \/ key = "F"%string ->
  App.handleKeyPress platform key s = App.toggleFullscreen platform s.
Proof. intros [H | H]; subst key; reflexivity. Qed.

Lemma handleKeyPress_other (platform : App.Platform) (key : string)
      (s : App.State * Document) :
  key <> "f"%string -> key <> "F"%string ->
  App.handleKeyPress platform key s = s.
Proof.
  intros Hf HF. unfold App.handleKeyPress.
  destruct (String.eqb_spec key "f"); [contradiction |].
  destruct (String.eqb_spec key "F"); [contradiction |].
  reflexivity.
Qed.

Section Fullscreen.

Variable platform : App.Platform.
Hypothesis platform_grants : App.grants platform.

Lemma toggle_enters (s : App.State * Document) :
  App.inFullscreen (snd s) = false ->
  App.toggleFullscreen platform s =
  (App.mkState true,
   App.requestFullscreen platform documentElement (snd s)) /\
  App.inFullscreen (snd (App.toggleFullscreen platform s)) = true.
Proof.
  intros H. unfold App.toggleFullscreen, App.inFullscreen in *.
  destruct (fullscreenElement (snd s)); [discriminate |].
  split; [reflexivity |]. cbn [snd].
  rewrite (proj1 platform_grants). reflexivity.
Qed.

Lemma toggle_leaves (s : App.State * Document) :
  App.inFullscreen (snd s) = true ->
  App.toggleFullscreen platform s =
  (App.mkState false, App.exitFullscreen platform (snd s)) /\
  App.inFullscreen (snd (App.toggleFullscreen platform s)) = false.
Proof.
  intros H. unfold App.toggleFullscreen, App.inFullscreen in *.
  destruct (fullscreenElement (snd s)); [| discriminate].
  split; [reflexivity |]. cbn [snd].
  rewrite (proj2 platform_grants). reflexivity.
Qed.

(** After a toggle the tracked flag is the state of the document, whatever
    they were before. *)
Lemma toggle_tracks (s : App.State * Document) :
  App.isFullscreen (fst (App.toggleFullscreen platform s)) =
  App.inFullscreen (snd (App.toggleFullscreen platform s)).
Proof.
  destruct (App.inFullscreen (snd s)) eqn:E.
  - destruct (toggle_leaves s E) as [Hrun Hout]. rewrite Hout, Hrun. reflexivity.
  - destruct (toggle_enters s E) as [Hrun Hin]. rewrite Hin, Hrun. reflexivity.
Qed.

End Fullscreen.

(** C8.  On a browser that carries out the fullscreen transitions it is
    asked for: pressing "f" or "F" outside fullscreen enters fullscreen,
    pressing it again leaves it, and after each of the two presses the
    tracked [isFullscreen] equals the fullscreen state of the document. *)
Theorem App_fullscreen_toggle (platform : App.Platform)
        (key key' : string) (s : App.State * Document) :
  App.grants platform ->
  key = "f"%string \/ key = "F"%string ->
  key' = "f"%string \/ key' = "F"%string ->
  let s1 := App.handleKeyPress platform key s in
  let s2 := App.handleKeyPress platform key' s1 in
  (App.inFullscreen (snd s) = false ->
   App.inFullscreen (snd s1) = true /\ App.inFullscreen (snd s2) = false) /\
  App.isFullscreen (fst s1) = App.inFullscreen (snd s1) /\
  App.isFullscreen (fst s2) = App.inFullscreen (snd s2).
Proof.
  intros Hg Hk Hk'. cbv zeta.
  rewrite (handleKeyPress_f platform key' _ Hk').
  rewrite (handleKeyPress_f platform key s Hk).
  split; [| split; apply toggle_tracks; exact Hg].
  intros Hout.
  destruct (toggle_enters platform Hg s Hout) as [_ Hin].
  split; [exact Hin |].
  apply (toggle_leaves platform Hg). exact Hin.
Qed.

(** A browser whose two calls take effect at once. *)
Lemma App_fullscreen_toggle_witness :
  let platform :=
    App.mkPlatform (fun el doc => mkDocument (cursor doc) (Some el))
                   (fun doc => mkDocument (cursor doc) None) in
  let s := (App.initial, mkDocument "auto" None) in
  let s1 := App.handleKeyPress platform "f" s in
  let s2 := App.handleKeyPress platform "F" s1 in
  App.grants platform /\
  App.inFullscreen (snd s) = false /\
  App.inFullscreen (snd s1) = true /\
  App.inFullscreen (snd s2) = false /\
  App.isFullscreen (fst s1) = App.inFullscreen (snd s1) /\
  App.isFullscreen (fst s2) = App.inFullscreen (snd s2).
Proof.
  intros platform s s1 s2.
  assert (Hg : App.grants platform) by (split; intros; reflexivity).
  destruct (App_fullscreen_toggle platform "f" "F" s Hg
              (or_introl eq_refl) (or_intror eq_refl)) as (Hpress & Ht1 & Ht2).
  destruct (Hpress eq_refl) as [Hin Hout].
  split; [exact Hg |].
  split; [reflexivity |].
  split; [exact Hin |].
  split; [exact Hout |].
  split; [exact Ht1 | exact Ht2].
Defined.

(** The assumption on the browser is needed: the flag is set without waiting
    for the transition, so a browser that refuses the request leaves it
    wrong. *)
Lemma refused_request_desynchronises :
  let platform :=
    App.mkPlatform (fun _ doc => doc)
                   (fun doc => mkDocument (cursor doc) None) in
  let s1 :=
    App.handleKeyPress platform "f" (App.initial, mkDocument "auto" None) in
  App.isFullscreen (fst s1) = true /\ App.inFullscreen (snd s1) = false.
Proof. split; reflexivity. Qed.

(** * Further properties *)

(** ** Loops and the random source *)

Lemma foldM_app {A S} (body : S -> A -> Rand S) (xs ys : list A) (acc : S)
      (entropy : nat -> R) (k : nat) :
  foldM body acc (xs ++ ys) entropy k =
  foldM body (fst (foldM body acc xs entropy k)) ys entropy
        (snd (foldM body acc xs entropy k)).
Proof.
  revert acc k. induction xs as [| x xs IH]; intros acc k.
  - reflexivity.
  - cbn [app foldM]. unfold bind.
    destruct (body acc x entropy k) as [acc' k']. apply IH.
Qed.

(** A loop whose rounds push one element and draw [c] samples: the whole
    array and the number of samples drawn. *)
Lemma foldM_pushed {A B} (make : A -> nat -> B) (c : nat)
      (body : list B -> A -> Rand (list B)) (entropy : nat -> R) :
  (forall acc x k, body acc x entropy k = (acc ++ [make x k], (c + k)%nat)) ->
  forall xs acc k,
    foldM body acc xs entropy k =
    (acc ++ pushed make c xs k, (c * List.length xs + k)%nat).
Proof.
  intros Hbody xs. induction xs as [| x xs IH]; intros acc k.
  - cbn [foldM pushed List.length]. unfold ret.
    rewrite app_nil_r, Nat.mul_0_r. reflexivity.
  - cbn [foldM]. unfold bind. rewrite Hbody, IH.
    cbn [pushed List.length]. rewrite <- app_assoc. cbn [app].
    f_equal. lia.
Qed.

Lemma pushed_length {A B} (make : A -> nat -> B) (c : nat) (xs : list A)
      (k : nat) :
  List.length (pushed make c xs k) = List.length xs.
Proof.
  revert k. induction xs as [| x xs IH]; intros k; cbn; [| rewrite IH];
    reflexivity.
Qed.

Lemma pushed_nth {A B} (make : A -> nat -> B) (c : nat) (xs : list A)
      (k i : nat) :
  nth_error (pushed make c xs k) i =
  option_map (fun x => make x (c * i + k)%nat) (nth_error xs i).
Proof.
  revert k i. induction xs as [| x xs IH]; intros k i.
  - destruct i; reflexivity.
  - destruct i as [| i].
    + cbn. do 2 f_equal. lia.
    + cbn [pushed nth_error]. rewrite IH.
      destruct (nth_error xs i); cbn; [do 2 f_equal; lia | reflexivity].
Qed.

(** Two nested loops are one loop over the pairs, row by row. *)
Lemma foldM_nested {A B S} (body : S -> A -> B -> Rand S) (xs : list A)
      (ys : list B) (acc : S) (entropy : nat -> R) (k : nat) :
  foldM (fun acc x => foldM (fun acc y => body acc x y) acc ys) acc xs
        entropy k =
  foldM (fun acc xy => body acc (fst xy) (snd xy)) acc (list_prod xs ys)
        entropy k.
Proof.
  revert acc k. induction xs as [| x xs IH]; intros acc k.
  - reflexivity.
  - cbn [foldM list_prod]. unfold bind. rewrite foldM_app.
    assert (Hrow : forall acc k,
               foldM (fun acc xy => body acc (fst xy) (snd xy)) acc
                     (map (fun y => (x, y)) ys) entropy k =
               foldM (fun acc y => body acc x y) acc ys entropy k).
    { clear. induction ys as [| y ys IHy]; intros acc k.
      - reflexivity.
      - cbn [map foldM fst snd]. unfold bind.
        destruct (body acc x y entropy k) as [acc' k']. apply IHy. }
    rewrite Hrow.
    destruct (foldM (fun acc y => body acc x y) acc ys entropy k)
      as [acc' k'].
    cbn [fst snd]. apply IH.
Qed.

(** The pair at a position of the row-by-row enumeration. *)
Lemma list_prod_nth (n m x z : nat) :
  (x < n)%nat -> (z < m)%nat ->
  nth_error (list_prod (seq 0 n) (seq 0 m)) (x * m + z) = Some (x, z).
Proof.
  intros Hx Hz.
  assert (Hgen : forall xs i,
             nth_error xs i = Some x ->
             nth_error (list_prod xs (seq 0 m)) (i * m + z) = Some (x, z)).
  { intros xs. induction xs as [| a xs IH]; intros i Hi.
    - destruct i; discriminate.
    - cbn [list_prod]. destruct i as [| i].
      + cbn in Hi. injection Hi as ->. cbn [Nat.mul Nat.add].
        rewrite nth_error_app1 by (rewrite length_map, length_seq; exact Hz).
        rewrite nth_error_map, nth_error_seq.
        destruct (Nat.ltb_spec z m); [reflexivity | lia].
      + cbn in Hi.
        rewrite nth_error_app2 by (rewrite length_map, length_seq; lia).
        rewrite length_map, length_seq.
        replace (S i * m + z - m)%nat with (i * m + z)%nat by lia.
        apply IH. exact Hi. }
  apply Hgen. rewrite nth_error_seq.
  destruct (Nat.ltb_spec x n); [reflexivity | lia].
Qed.

(** ** [gaussianRandom]: location and scale *)

(** X1.  On the same two samples, [gaussianRandom(mean, stdev)] is the
    standard draw [gaussianRandom(0, 1)] scaled by [stdev] and shifted by
    [mean]. *)
Theorem gaussianRandom_affine (entropy : nat -> R) (mean stdev : R) (k : nat) :
  0 <= entropy k < 1 ->
  exists z,
    fst (gaussianRandom (Fin 0) (Fin 1) entropy k) = Fin z /\
    fst (gaussianRandom (Fin mean) (Fin stdev) entropy k) =
    Fin (z * stdev + mean).
Proof.
  intros Hk. rewrite !gaussianRandom_run by exact Hk. cbn [fst].
  eexists. split; [reflexivity |]. f_equal. ring.
Qed.

Lemma gaussianRandom_affine_witness :
  let entropy := fun _ : nat => 0.25 in
  0 <= entropy 0%nat < 1 /\
  exists z,
    fst (gaussianRandom (Fin 0) (Fin 1) entropy 0%nat) = Fin z /\
    fst (gaussianRandom (Fin 0.5) (Fin 0.2) entropy 0%nat) =
    Fin (z * 0.2 + 0.5).
Proof.
  intros entropy.
  assert (H : 0 <= entropy 0%nat < 1) by (unfold entropy; lra).
  split; [exact H |].
  exact (gaussianRandom_affine entropy 0.5 0.2 0%nat H).
Defined.

(** X2.  The draw stays within [|stdev| * sqrt(-2 ln(1 - r))] of the mean,
    [r] the first sample; a first sample of 0 returns the mean itself. *)
Theorem gaussianRandom_deviation (entropy : nat -> R) (mean stdev : R)
        (k : nat) :
  0 <= entropy k < 1 ->
  exists y,
    fst (gaussianRandom (Fin mean) (Fin stdev) entropy k) = Fin y /\
    Rabs (y - mean) <= Rabs stdev * sqrt (-2.0 * ln (1 - entropy k)) /\
    (entropy k = 0 -> y = mean).
Proof.
  intros Hk. rewrite gaussianRandom_run by exact Hk. cbn [fst].
  eexists. split; [reflexivity |].
  set (a := sqrt (-2.0 * ln (1 - entropy k))).
  set (c := cos (2.0 * PI * entropy (S k))).
  assert (Ha : 0 <= a) by apply sqrt_pos.
  assert (Hc : Rabs c <= 1) by (apply Rabs_le; apply COS_bound).
  split.
  - replace (a * c * stdev + mean - mean) with (a * c * stdev) by ring.
    rewrite !Rabs_mult, (Rabs_pos_eq a Ha).
    pose proof (Rabs_pos stdev) as Hs.
    pose proof (Rabs_pos c) as Hc0.
    assert (Hac : a * Rabs c <= a) by nra.
    rewrite (Rmult_comm (Rabs stdev) a).
    apply Rmult_le_compat_r; assumption.
  - intros H0. unfold a. rewrite H0.
    replace (-2.0 * ln (1 - 0)) with 0
      by (replace (1 - 0) with 1 by ring; rewrite ln_1; ring).
    rewrite sqrt_0. ring.
Qed.

Lemma gaussianRandom_deviation_witness :
  let entropy := fun _ : nat => 0 in
  0 <= entropy 0%nat < 1 /\
  exists y,
    fst (gaussianRandom (Fin 0.5) (Fin 0.2) entropy 0%nat) = Fin y /\
    y = 0.5.
Proof.
  intros entropy.
  assert (H : 0 <= entropy 0%nat < 1) by (unfold entropy; lra).
  split; [exact H |].
  destruct (gaussianRandom_deviation entropy 0.5 0.2 0%nat H)
    as (y & Hy & _ & Hzero).
  exists y. split; [exact Hy | exact (Hzero eq_refl)].
Defined.

(** ** The palette: anchors and order *)

Section PaletteShape.

Import GLSL Shader.






End PaletteShape.

(** X3.  The palette passes through its anchors at the band edges
    [0, 0.2, 0.4, 0.6, 0.8, 1] and is constant outside the unit interval:
    [c0] below 0 and [c5] from 1 on. *)
Theorem customPalette_through_anchors :
  Shader.customPalette 0 = Shader.c0 /\
  Shader.customPalette 0.2 = Shader.c1 /\
  Shader.customPalette 0.4 = Shader.c2 /\
  Shader.customPalette 0.6 = Shader.c3 /\
  Shader.customPalette 0.8 = Shader.c4 /\
  Shader.customPalette 1 = Shader.c5 /\
  (forall t, t <= 0 -> Shader.customPalette t = Shader.c0) /\
  (forall t, 1 <= t -> Shader.customPalette t = Shader.c5).
Proof.
  assert (Hlow : forall t, t <= 0 -> Shader.customPalette t = Shader.c0).
  { intros t Ht. unfold Shader.customPalette.
    rewrite (smoothstep_below 0.0 0.2 t), (smoothstep_below 0.2 0.4 t),
      (smoothstep_below 0.4 0.6 t), (smoothstep_below 0.6 0.8 t),
      (smoothstep_below 0.8 1.0 t) by lra.
    rewrite !mix3_0. reflexivity. }
  assert (Hhigh : forall t, 1 <= t -> Shader.customPalette t = Shader.c5).
  { intros t Ht. unfold Shader.customPalette.
    rewrite (smoothstep_above 0.8 1.0 t) by lra.
    apply mix3_1. }
  assert (Hedge : forall (j : nat) (t : R),
             (1 <= j <= 4)%nat -> t = INR j * 0.2 ->
             Shader.customPalette t = nth j Shader.anchors Shader.c0).
  { intros j t Hj Ht.
    assert (Hj' : j = 1%nat \/ j = 2%nat \/ j = 3%nat \/ j = 4%nat) by lia.
    unfold Shader.customPalette.
    destruct Hj' as [-> | [-> | [-> | ->]]]; cbn [INR] in Ht; subst t;
      cbn [nth Shader.anchors].
    - rewrite (smoothstep_above 0.0 0.2), (smoothstep_below 0.2 0.4),
        (smoothstep_below 0.4 0.6), (smoothstep_below 0.6 0.8),
        (smoothstep_below 0.8 1.0) by lra.
      rewrite !mix3_0, !mix3_1. reflexivity.
    - rewrite (smoothstep_above 0.2 0.4), (smoothstep_below 0.4 0.6),
        (smoothstep_below 0.6 0.8), (smoothstep_below 0.8 1.0) by lra.
      rewrite !mix3_0, !mix3_1. reflexivity.
    - rewrite (smoothstep_above 0.4 0.6), (smoothstep_below 0.6 0.8),
        (smoothstep_below 0.8 1.0) by lra.
      rewrite !mix3_0, !mix3_1. reflexivity.
    - rewrite (smoothstep_above 0.6 0.8), (smoothstep_below 0.8 1.0) by lra.
      rewrite !mix3_0, !mix3_1. reflexivity. }
  split; [apply Hlow; lra |].
  split; [apply (Hedge 1%nat); [lia | cbn [INR]; lra] |].
  split; [apply (Hedge 2%nat); [lia | cbn [INR]; lra] |].
  split; [apply (Hedge 3%nat); [lia | cbn [INR]; lra] |].
  split; [apply (Hedge 4%nat); [lia | cbn [INR]; lra] |].
  split; [apply Hhigh; lra |].
  split; assumption.
Qed.

Lemma customPalette_through_anchors_witness :
  -1 <= 0 /\ Shader.customPalette (-1) = Shader.c0 /\
  1 <= 2 /\ Shader.customPalette 2 = Shader.c5.
Proof.
  destruct customPalette_through_anchors
    as (_ & _ & _ & _ & _ & _ & Hlow & Hhigh).
  assert (H1 : -1 <= 0) by lra.
  assert (H2 : 1 <= 2) by lra.
  split; [exact H1 |]. split; [exact (Hlow (-1) H1) |].
  split; [exact H2 | exact (Hhigh 2 H2)].
Defined.



(** ** The fragment shader: fog, phase and the plain colour *)

Section FragmentShape.

Import GLSL Shader.

Lemma normalize_unit (v : vec3) :
  0 < dot v v -> dot (normalize v) (normalize v) = 1.
Proof.
  intros Hv.
  assert (Hl : length v * length v = dot v v)
    by (unfold length; apply sqrt_sqrt; lra).
  assert (Hpos : 0 < length v) by (unfold length; apply sqrt_lt_R0; exact Hv).
  unfold normalize. set (l := length v) in *.
  destruct v as [x y z]. unfold dot in *. cbn [vx vy vz] in *.
  field_simplify_eq; [| lra]. nra.
Qed.

Lemma unit_dot_bounds (a b : vec3) :
  dot a a = 1 -> dot b b = 1 -> -1 <= dot a b <= 1.
Proof.
  destruct a as [a1 a2 a3], b as [b1 b2 b3]. unfold dot. cbn [vx vy vz].
  intros Ha Hb.
  assert (H1 : 0 <= (a1 - b1) * (a1 - b1) + (a2 - b2) * (a2 - b2)
                    + (a3 - b3) * (a3 - b3))
    by (repeat apply Rplus_le_le_0_compat; apply Rle_0_sqr).
  assert (H2 : 0 <= (a1 + b1) * (a1 + b1) + (a2 + b2) * (a2 + b2)
                    + (a3 + b3) * (a3 + b3))
    by (repeat apply Rplus_le_le_0_compat; apply Rle_0_sqr).
  lra.
Qed.

Lemma vsub_nonzero (a b : vec3) : a <> b -> 0 < dot (vsub a b) (vsub a b).
Proof.
  destruct a as [a1 a2 a3], b as [b1 b2 b3]. intros Hne.
  unfold dot, vsub. cbn [vx vy vz].
  pose proof (Rle_0_sqr (a1 - b1)) as S1.
  pose proof (Rle_0_sqr (a2 - b2)) as S2.
  pose proof (Rle_0_sqr (a3 - b3)) as S3.
  assert (Hpos : forall u w, u <> w -> 0 < Rsqr (u - w))
    by (intros u w Huw; apply Rsqr_pos_lt; lra).
  unfold Rsqr in *.
  destruct (Req_dec a1 b1) as [E1 | N1]; [| specialize (Hpos _ _ N1); lra].
  destruct (Req_dec a2 b2) as [E2 | N2]; [| specialize (Hpos _ _ N2); lra].
  destruct (Req_dec a3 b3) as [E3 | N3]; [| specialize (Hpos _ _ N3); lra].
  subst. contradiction Hne. reflexivity.
Qed.

Lemma customPalette_in_box (t : R) : in_box (customPalette t).
Proof.
  pose proof anchors_in_box as Ha. unfold anchors in Ha.
  repeat match type of Ha with
         | Forall _ (_ :: _) =>
             let H := fresh "Hc" in
             apply Forall_cons_iff in Ha; destruct Ha as [H Ha]
         end.
  unfold customPalette.
  repeat (apply mix3_in_box; [| assumption | apply smoothstep_unit]).
  assumption.
Qed.

Lemma mod_shift (x : R) (n : Z) : mod_ (x + IZR n) 1.0 = mod_ x 1.0.
Proof.
  unfold mod_, floor.
  replace ((x + IZR n) / 1.0) with (x / 1.0 + IZR n) by lra.
  rewrite Zfloor_addz, plus_IZR. lra.
Qed.

End FragmentShape.

(** X5.  The fog factor always lies in [[0, 1]] and is 0 at distance 0.
    Where [dist * density >= 0] the clamp does not cut and the factor is
    [1 - exp(-dist * density)]; where [dist * density <= 0] it is 0.  For a
    density that is not negative it never decreases with the distance. *)
Theorem fogFactor_profile (dist density : R) :
  0 <= Shader.fogFactor dist density <= 1 /\
  Shader.fogFactor 0 density = 0 /\
  (0 <= dist * density ->
   Shader.fogFactor dist density = 1 - exp (- dist * density)) /\
  (dist * density <= 0 -> Shader.fogFactor dist density = 0) /\
  (forall farther,
      0 <= density -> dist <= farther ->
      Shader.fogFactor dist density <= Shader.fogFactor farther density).
Proof.
  assert (Hmono : forall a b, a <= b -> exp a <= exp b).
  { intros a b [Hlt | ->]; [left; apply exp_increasing; exact Hlt |].
    apply Rle_refl. }
  split; [unfold Shader.fogFactor; split_cmp; lra |].
  split.
  { unfold Shader.fogFactor.
    replace (- 0 * density) with 0 by ring. rewrite exp_0.
    split_cmp; lra. }
  split; [| split].
  - intros Hp.
    pose proof (exp_pos (- dist * density)) as Hpos.
    assert (Hle : exp (- dist * density) <= exp 0) by (apply Hmono; lra).
    rewrite exp_0 in Hle.
    unfold Shader.fogFactor. split_cmp; lra.
  - intros Hp.
    assert (Hge : exp 0 <= exp (- dist * density)) by (apply Hmono; lra).
    rewrite exp_0 in Hge.
    unfold Shader.fogFactor. split_cmp; lra.
  - intros farther Hk Hf.
    assert (Hexp : exp (- farther * density) <= exp (- dist * density))
      by (apply Hmono; nra).
    unfold Shader.fogFactor. split_cmp; lra.
Qed.

Lemma fogFactor_profile_witness :
  0 <= Shader.fogFactor 0.25 2 <= 1 /\
  Shader.fogFactor 0.25 2 = 1 - exp (- (0.25) * 2) /\
  Shader.fogFactor (-0.25) 2 = 0 /\
  Shader.fogFactor 0.25 2 <= Shader.fogFactor 0.5 2.
Proof.
  destruct (fogFactor_profile 0.25 2) as (Hr & _ & Hv & _ & Hm).
  destruct (fogFactor_profile (-0.25) 2) as (_ & _ & _ & Hz & _).
  split; [exact Hr |].
  split; [apply Hv; lra |].
  split; [apply Hz; lra |].
  apply Hm; lra.
Defined.

(** X7.  Without hovering ([isHovered <= 0]) the colour is a function of
    the time, the phase, the index, the view vector and the normal alone:
    the local position of the fragment is not read. *)
Theorem main_unhovered_inputs (inp1 inp2 : Shader.FragmentInput)
        (out1 out2 : Shader.FragmentOutput) :
  Shader.isHovered inp1 <= 0 ->
  Shader.isHovered inp2 <= 0 ->
  Shader.time inp1 = Shader.time inp2 ->
  Shader.randomValue inp1 = Shader.randomValue inp2 ->
  Shader.index inp1 = Shader.index inp2 ->
  Shader.viewDirectionOf inp1 = Shader.viewDirectionOf inp2 ->
  Shader.vNormal inp1 = Shader.vNormal inp2 ->
  Shader.main inp1 out1 = Shader.main inp2 out2.
Proof.
  intros H1 H2 Ht Hr Hi Hv Hn.
  unfold Shader.main.
  rewrite !Rgtb_false by lra.
  rewrite Ht, Hr, Hi, Hv, Hn. reflexivity.
Qed.

Lemma main_unhovered_inputs_witness :
  let inp1 :=
    Shader.mkFragmentInput (GLSL.mkvec3 0 0 0) 2 3 0.5 0 (GLSL.mkvec2 0 0)
      (GLSL.mkvec3 0.25 0 0) (GLSL.mkvec3 1 0 0) (GLSL.mkvec3 0 0 0)
      (GLSL.mkvec3 12 12 12) in
  let inp2 :=
    Shader.mkFragmentInput (GLSL.mkvec3 0 0 0) 2 3 0.5 0 (GLSL.mkvec2 0 0)
      (GLSL.mkvec3 0.25 0.25 0.25) (GLSL.mkvec3 1 0 0) (GLSL.mkvec3 0 0 0)
      (GLSL.mkvec3 12 12 12) in
  let out := Shader.mkFragmentOutput (GLSL.mkvec4 (GLSL.mkvec3 0 0 0) 0) in
  Shader.isHovered inp1 <= 0 /\
  Shader.vPosition inp1 <> Shader.vPosition inp2 /\
  Shader.main inp1 out = Shader.main inp2 out.
Proof.
  intros inp1 inp2 out.
  assert (H : Shader.isHovered inp1 <= 0) by (cbn; lra).
  split; [exact H |].
  split.
  - cbn. intros E. injection E as E. lra.
  - exact (main_unhovered_inputs inp1 inp2 out out H H
             eq_refl eq_refl eq_refl eq_refl eq_refl).
Defined.

(** X8.  The plain colour.  Without hovering, seen from a camera away from
    the fragment and with a unit normal, the colour written is the palette
    colour plus a rim of at most 4 times the tint, dimmed to between 60% and
    100%: red lies in [[0.21, 2.2]], green in [[0, 1]], blue in [[0, 0.6]],
    and alpha is 1. *)
Theorem main_plain_colour_bounds (inp : Shader.FragmentInput)
        (out : Shader.FragmentOutput) :
  Shader.isHovered inp <= 0 ->
  Shader.cameraPosition inp <> Shader.vWorldPosition inp ->
  GLSL.dot (Shader.vNormal inp) (Shader.vNormal inp) = 1 ->
  let written := Shader.gl_FragColor (Shader.main inp out) in
  0.21 <= GLSL.vx (GLSL.rgb written) <= 2.2 /\
  0 <= GLSL.vy (GLSL.rgb written) <= 1 /\
  0 <= GLSL.vz (GLSL.rgb written) <= 0.6 /\
  GLSL.alpha written = 1.
Proof.
  intros Hh Hcam Hn. cbv zeta.
  assert (Halpha : GLSL.alpha (Shader.gl_FragColor (Shader.main inp out)) = 1)
    by (unfold Shader.main; cbn [Shader.gl_FragColor GLSL.alpha]; lra).
  rewrite main_unhovered by exact Hh.
  pose proof (customPalette_in_box
                (GLSL.mod_ (Shader.randomValue inp + Shader.time inp * 0.1) 1.0))
    as Hbox.
  unfold Shader.in_box in Hbox.
  destruct channel_extremes as (E1 & E2 & E3 & E4 & E5 & E6).
  rewrite E1, E2, E3, E4, E5, E6 in Hbox.
  destruct Hbox as (Hr & Hg & Hb).
  set (base := Shader.customPalette _) in *.
  assert (Hd : -1 <= GLSL.dot (Shader.viewDirectionOf inp) (Shader.vNormal inp)
               <= 1).
  { apply unit_dot_bounds; [| exact Hn].
    apply normalize_unit. apply vsub_nonzero. exact Hcam. }
  set (d := GLSL.dot (Shader.viewDirectionOf inp) (Shader.vNormal inp)) in *.
  assert (Hrim : 0 <= (1.0 - d) ^ 3 * 0.5 <= 4).
  { assert (H0 : 0 <= (1.0 - d) ^ 3) by (apply pow_le; lra).
    assert (H8 : (1.0 - d) ^ 3 <= 2 ^ 3) by (apply pow_incr; lra).
    cbn [pow] in H8. lra. }
  set (rim := (1.0 - d) ^ 3 * 0.5) in *.
  pose proof (SIN_bound (Shader.time inp * 2.0 + Shader.index inp * 0.5)) as Hsin.
  set (k := 0.8 + 0.2 * sin (Shader.time inp * 2.0 + Shader.index inp * 0.5)).
  assert (Hk : 0.6 <= k <= 1) by (unfold k; lra).
  unfold GLSL.vscale, GLSL.vadd, GLSL.scalev. cbn [GLSL.vx GLSL.vy GLSL.vz].
  repeat split; try exact Halpha; nra.
Qed.

Lemma main_plain_colour_bounds_witness :
  let inp :=
    Shader.mkFragmentInput (GLSL.mkvec3 0 0 0) 2 3 0.5 0 (GLSL.mkvec2 0 0)
      (GLSL.mkvec3 0.25 0 0) (GLSL.mkvec3 1 0 0) (GLSL.mkvec3 0 0 0)
      (GLSL.mkvec3 12 12 12) in
  let out := Shader.mkFragmentOutput (GLSL.mkvec4 (GLSL.mkvec3 0 0 0) 0) in
  Shader.isHovered inp <= 0 /\
  Shader.cameraPosition inp <> Shader.vWorldPosition inp /\
  GLSL.dot (Shader.vNormal inp) (Shader.vNormal inp) = 1 /\
  0.21 <= GLSL.vx (GLSL.rgb (Shader.gl_FragColor (Shader.main inp out))) <= 2.2.
Proof.
  intros inp out.
  assert (H1 : Shader.isHovered inp <= 0) by (cbn; lra).
  assert (H2 : Shader.cameraPosition inp <> Shader.vWorldPosition inp)
    by (cbn; intros E; injection E as E; lra).
  assert (H3 : GLSL.dot (Shader.vNormal inp) (Shader.vNormal inp) = 1)
    by (unfold GLSL.dot; cbn; lra).
  split; [exact H1 |]. split; [exact H2 |]. split; [exact H3 |].
  exact (proj1 (main_plain_colour_bounds inp out H1 H2 H3)).
Defined.

(** ** The vertex shader *)

(** X9.  The vertex is moved along x by at most 0.02 and then scaled by
    [1 + 0.15 * isHovered]: a cube that is not hovered keeps its y and z and
    wobbles within 0.02 in x; a hovered one ([isHovered = 1]) is the wobbled
    vertex scaled by 1.15. *)
Theorem vertex_displacement (inp : VertexShader.VertexInput) :
  let p := VertexShader.position inp in
  let q := VertexShader.displaced inp in
  exists wobble,
    Rabs wobble <= 0.02 /\
    q = GLSL.vscale (GLSL.mkvec3 (GLSL.vx p + wobble) (GLSL.vy p) (GLSL.vz p))
                    (1.0 + VertexShader.isHovered inp * 0.15) /\
    (VertexShader.isHovered inp = 0 ->
     Rabs (GLSL.vx q - GLSL.vx p) <= 0.02 /\
     GLSL.vy q = GLSL.vy p /\ GLSL.vz q = GLSL.vz p) /\
    (VertexShader.isHovered inp = 1 ->
     q = GLSL.vscale
           (GLSL.mkvec3 (GLSL.vx p + wobble) (GLSL.vy p) (GLSL.vz p)) 1.15).
Proof.
  cbv zeta.
  set (w := sin (VertexShader.time inp * 2.0 + VertexShader.index inp * 0.5)
            * 0.02).
  assert (Hw : Rabs w <= 0.02).
  { unfold w. apply Rabs_le.
    pose proof (SIN_bound (VertexShader.time inp * 2.0
                           + VertexShader.index inp * 0.5)). lra. }
  exists w. split; [exact Hw |].
  split; [reflexivity |].
  split.
  - intros H0. unfold VertexShader.displaced. fold w. rewrite H0.
    unfold GLSL.vscale. cbn [GLSL.vx GLSL.vy GLSL.vz].
    split; [| split; lra].
    replace ((GLSL.vx (VertexShader.position inp) + w) * (1.0 + 0 * 0.15)
             - GLSL.vx (VertexShader.position inp)) with w by lra.
    exact Hw.
  - intros H1. unfold VertexShader.displaced. fold w. rewrite H1.
    f_equal. lra.
Qed.

Lemma vertex_displacement_witness :
  let id4 :=
    GLSL.mkmat4 (GLSL.mkvec4 (GLSL.mkvec3 1 0 0) 0)
                (GLSL.mkvec4 (GLSL.mkvec3 0 1 0) 0)
                (GLSL.mkvec4 (GLSL.mkvec3 0 0 1) 0)
                (GLSL.mkvec4 (GLSL.mkvec3 0 0 0) 1) in
  let id3 :=
    GLSL.mkmat3 (GLSL.mkvec3 1 0 0) (GLSL.mkvec3 0 1 0) (GLSL.mkvec3 0 0 1) in
  let inp :=
    VertexShader.mkVertexInput (GLSL.mkvec3 0.25 0.25 0.25)
      (GLSL.mkvec3 0 1 0) (GLSL.mkvec2 0 0) 2 3 0 id4 id4 id4 id3 in
  VertexShader.isHovered inp = 0 /\
  Rabs (GLSL.vx (VertexShader.displaced inp) - 0.25) <= 0.02 /\
  GLSL.vy (VertexShader.displaced inp) = 0.25 /\
  GLSL.vz (VertexShader.displaced inp) = 0.25.
Proof.
  intros id4 id3 inp.
  destruct (vertex_displacement inp) as (w & _ & _ & Hplain & _).
  split; [reflexivity |].
  exact (Hplain eq_refl).
Defined.

(** X10.  What the fragment shader receives does not move with the
    animation: [vUv], [vPosition], [vNormal] and [vWorldPosition] are the
    same whatever the time, the index and the hover strength, [vPosition] is
    the position as given, and [vNormal] is a unit vector whenever the
    transformed normal is not zero. *)
Theorem vertex_varyings (inp : VertexShader.VertexInput) (time' index' h' : R) :
  let out := VertexShader.main inp in
  let out' :=
    VertexShader.main
      (VertexShader.mkVertexInput
         (VertexShader.position inp) (VertexShader.normal inp)
         (VertexShader.uv inp) time' index' h'
         (VertexShader.modelMatrix inp) (VertexShader.modelViewMatrix inp)
         (VertexShader.projectionMatrix inp) (VertexShader.normalMatrix inp)) in
  VertexShader.vUv out' = VertexShader.vUv out /\
  VertexShader.vPosition out' = VertexShader.vPosition out /\
  VertexShader.vNormal out' = VertexShader.vNormal out /\
  VertexShader.vWorldPosition out' = VertexShader.vWorldPosition out /\
  VertexShader.vPosition out = VertexShader.position inp /\
  (let n := GLSL.mulm3v (VertexShader.normalMatrix inp)
                        (VertexShader.normal inp) in
   0 < GLSL.dot n n ->
   GLSL.dot (VertexShader.vNormal out) (VertexShader.vNormal out) = 1).
Proof.
  cbv zeta. repeat (split; [reflexivity |]).
  intros Hn. unfold VertexShader.main. cbn [VertexShader.vNormal].
  apply normalize_unit. exact Hn.
Qed.

Lemma vertex_varyings_witness :
  let id4 :=
    GLSL.mkmat4 (GLSL.mkvec4 (GLSL.mkvec3 1 0 0) 0)
                (GLSL.mkvec4 (GLSL.mkvec3 0 1 0) 0)
                (GLSL.mkvec4 (GLSL.mkvec3 0 0 1) 0)
                (GLSL.mkvec4 (GLSL.mkvec3 0 0 0) 1) in
  let id3 :=
    GLSL.mkmat3 (GLSL.mkvec3 1 0 0) (GLSL.mkvec3 0 1 0) (GLSL.mkvec3 0 0 1) in
  let inp :=
    VertexShader.mkVertexInput (GLSL.mkvec3 0.25 0.25 0.25)
      (GLSL.mkvec3 0 2 0) (GLSL.mkvec2 0 0) 2 3 0 id4 id4 id4 id3 in
  let n := GLSL.mulm3v (VertexShader.normalMatrix inp)
                       (VertexShader.normal inp) in
  0 < GLSL.dot n n /\
  GLSL.dot (VertexShader.vNormal (VertexShader.main inp))
           (VertexShader.vNormal (VertexShader.main inp)) = 1.
Proof.
  intros id4 id3 inp n.
  assert (Hn : 0 < GLSL.dot n n).
  { unfold n, inp, id3, GLSL.dot, GLSL.mulm3v.
    cbn [VertexShader.normalMatrix VertexShader.normal GLSL.m3row0
         GLSL.m3row1 GLSL.m3row2 GLSL.vx GLSL.vy GLSL.vz].
    unfold GLSL.dot. cbn [GLSL.vx GLSL.vy GLSL.vz]. lra. }
  split; [exact Hn |].
  exact (proj2 (proj2 (proj2 (proj2 (proj2 (vertex_varyings inp 0 0 0))))) Hn).
Defined.

Lemma mulm4_assoc (a b : GLSL.mat4) (v : GLSL.vec4) :
  GLSL.mulm4v (GLSL.mulm4m a b) v = GLSL.mulm4v a (GLSL.mulm4v b v).
Proof.
  destruct a as [[[a00 a01 a02] a03] [[a10 a11 a12] a13]
                 [[a20 a21 a22] a23] [[a30 a31 a32] a33]].
  destruct b as [[[b00 b01 b02] b03] [[b10 b11 b12] b13]
                 [[b20 b21 b22] b23] [[b30 b31 b32] b33]].
  destruct v as [[v0 v1 v2] v3].
  unfold GLSL.mulm4v, GLSL.mulm4m, GLSL.mulrow, GLSL.column, GLSL.dot4,
    GLSL.dot.
  cbn [GLSL.row0 GLSL.row1 GLSL.row2 GLSL.row3 GLSL.rgb GLSL.alpha
       GLSL.vx GLSL.vy GLSL.vz].
  f_equal; [f_equal |]; ring.
Qed.

(** X11.  The clip-space position is the projection of the view transform
    of the displaced vertex; with identity matrices it is the displaced
    vertex itself, with w = 1. *)
Theorem vertex_gl_Position (inp : VertexShader.VertexInput) :
  let id4 :=
    GLSL.mkmat4 (GLSL.mkvec4 (GLSL.mkvec3 1 0 0) 0)
                (GLSL.mkvec4 (GLSL.mkvec3 0 1 0) 0)
                (GLSL.mkvec4 (GLSL.mkvec3 0 0 1) 0)
                (GLSL.mkvec4 (GLSL.mkvec3 0 0 0) 1) in
  VertexShader.gl_Position (VertexShader.main inp) =
  GLSL.mulm4v (VertexShader.projectionMatrix inp)
    (GLSL.mulm4v (VertexShader.modelViewMatrix inp)
                 (GLSL.mkvec4 (VertexShader.displaced inp) 1.0)) /\
  (VertexShader.projectionMatrix inp = id4 ->
   VertexShader.modelViewMatrix inp = id4 ->
   VertexShader.gl_Position (VertexShader.main inp) =
   GLSL.mkvec4 (VertexShader.displaced inp) 1).
Proof.
  cbv zeta.
  assert (Hpos : VertexShader.gl_Position (VertexShader.main inp) =
                 GLSL.mulm4v (VertexShader.projectionMatrix inp)
                   (GLSL.mulm4v (VertexShader.modelViewMatrix inp)
                      (GLSL.mkvec4 (VertexShader.displaced inp) 1.0))).
  { unfold VertexShader.main. cbn [VertexShader.gl_Position].
    apply mulm4_assoc. }
  split; [exact Hpos |].
  intros HP HMV. rewrite Hpos, HP, HMV.
  destruct (VertexShader.displaced inp) as [x y z].
  unfold GLSL.mulm4v, GLSL.dot4, GLSL.dot.
  cbn [GLSL.row0 GLSL.row1 GLSL.row2 GLSL.row3 GLSL.rgb GLSL.alpha
       GLSL.vx GLSL.vy GLSL.vz].
  f_equal; [f_equal |]; lra.
Qed.

Lemma vertex_gl_Position_witness :
  let id4 :=
    GLSL.mkmat4 (GLSL.mkvec4 (GLSL.mkvec3 1 0 0) 0)
                (GLSL.mkvec4 (GLSL.mkvec3 0 1 0) 0)
                (GLSL.mkvec4 (GLSL.mkvec3 0 0 1) 0)
                (GLSL.mkvec4 (GLSL.mkvec3 0 0 0) 1) in
  let id3 :=
    GLSL.mkmat3 (GLSL.mkvec3 1 0 0) (GLSL.mkvec3 0 1 0) (GLSL.mkvec3 0 0 1) in
  let inp :=
    VertexShader.mkVertexInput (GLSL.mkvec3 0.25 0.25 0.25)
      (GLSL.mkvec3 0 1 0) (GLSL.mkvec2 0 0) 2 3 1 id4 id4 id4 id3 in
  VertexShader.gl_Position (VertexShader.main inp) =
  GLSL.mkvec4 (VertexShader.displaced inp) 1.
Proof.
  intros id4 id3 inp.
  exact (proj2 (vertex_gl_Position inp) eq_refl eq_refl).
Defined.

(** ** [Cube]: traces of pointer events and the frame *)

Lemma run_last (evs : list Cube.PointerEvent) (ev : Cube.PointerEvent)
      (s : Cube.State * Document) :
  Cube.run (evs ++ [ev]) s = Cube.handle ev (Cube.run evs s).
Proof. rewrite run_app. reflexivity. Qed.

Lemma run_keeps_fullscreen (evs : list Cube.PointerEvent)
      (s : Cube.State * Document) :
  fullscreenElement (snd (Cube.run evs s)) = fullscreenElement (snd s).
Proof.
  revert s. induction evs as [| ev evs IH]; intros s.
  - reflexivity.
  - change (Cube.run (ev :: evs) s) with (Cube.run evs (Cube.handle ev s)).
    rewrite IH. destruct ev; reflexivity.
Qed.

(** X12.  After any pointer events on a cube only the last one counts: the
    cube is hovered and the cursor is [pointer] exactly if it was a
    pointer-enter, otherwise the cube is not hovered and the cursor is
    [auto].  No pointer event touches the fullscreen state. *)
Theorem Cube_last_event_wins (evs : list Cube.PointerEvent)
        (ev : Cube.PointerEvent) (s : Cube.State * Document) :
  let s' := Cube.run (evs ++ [ev]) s in
  Cube.hovered (fst s') =
  match ev with Cube.pointerover => true | Cube.pointerout => false end /\
  cursor (snd s') =
  match ev with
  | Cube.pointerover => "pointer"%string
  | Cube.pointerout => "auto"%string
  end /\
  fullscreenElement (snd s') = fullscreenElement (snd s).
Proof.
  cbv zeta. split; [| split].
  - rewrite run_last. destruct ev; reflexivity.
  - rewrite run_last. destruct ev; reflexivity.
  - apply run_keeps_fullscreen.
Qed.

(** A frame overwrites every uniform of a mounted material from the
    props, the clock and the hover flag, whatever the material held; the
    test [isHovered > 0.0] of the fragment shader then succeeds exactly if
    the last pointer event was a pointer-enter.  With no material the frame
    does nothing. *)
Lemma Cube_frame_uniforms (props : Cube.Props)
        (evs : list Cube.PointerEvent) (ev : Cube.PointerEvent)
        (s : Cube.State * Document) (elapsedTime : R) (m : Cube.Material) :
  let st := fst (Cube.run (evs ++ [ev]) s) in
  Cube.useFrame props st elapsedTime None = None /\
  exists m',
    Cube.useFrame props st elapsedTime (Some m) = Some m' /\
    Cube.u_time m' = elapsedTime /\
    Cube.u_color m' = Cube.color props /\
    Cube.u_index m' = Cube.index props /\
    Cube.u_randomValue m' = Cube.randomValue props /\
    (Cube.u_isHovered m' = 0 \/ Cube.u_isHovered m' = 1) /\
    Rgtb (Cube.u_isHovered m') 0.0 =
    match ev with Cube.pointerover => true | Cube.pointerout => false end.
Proof.
  cbv zeta. split; [reflexivity |].
  eexists. split; [reflexivity |].
  cbn [Cube.u_time Cube.u_color Cube.u_index Cube.u_randomValue
       Cube.u_isHovered].
  repeat (split; [reflexivity |]).
  rewrite run_last. destruct ev; cbn [Cube.handle Cube.handlePointerOver
    Cube.handlePointerOut fst Cube.hovered].
  - split; [right; lra | apply Rgtb_true; lra].
  - split; [left; lra | apply Rgtb_false; lra].
Qed.

(** ** [Tower]: waiting, growth and visibility *)

Lemma pow4_strict (x y : R) : 0 <= x -> x < y -> x ^ 4 < y ^ 4.
Proof.
  intros Hx Hxy.
  assert (H2 : x * x < y * y) by nra.
  assert (H0 : 0 <= x * x) by nra.
  replace (x ^ 4) with ((x * x) * (x * x)) by ring.
  replace (y ^ 4) with ((y * y) * (y * y)) by ring.
  nra.
Qed.

(** X13.  Until its delay has passed a tower is flat: while
    [elapsed <= delay] the [scale.y] read back after a frame of a mounted
    tower is 0, visible or not and whatever it was before, so the growth
    starts from 0 without a jump. *)
Theorem Tower_waiting (props : Tower.Props) (startTime now : Z)
        (visible : bool) (g : Tower.Group) :
  Tower.sinceMount startTime now <= Tower.delay props ->
  option_map Tower.scale_y
             (Tower.useFrame props startTime now visible (Some g)) = Some 0.
Proof.
  intros H.
  destruct visible;
    [| rewrite useFrame_zero by (right; reflexivity); apply scale_y_written].
  destruct (Rle_lt_or_eq_dec _ _ H) as [Hlt | Heq].
  - rewrite useFrame_zero by (left; unfold Tower.elapsedTime; lra).
    apply scale_y_written.
  - rewrite useFrame_growing by (unfold Tower.elapsedTime; lra).
    rewrite scale_y_written.
    unfold Tower.elapsedTime. rewrite Heq.
    replace ((Tower.delay props - Tower.delay props) / 1.5) with 0 by lra.
    rewrite Rmin_left by lra.
    replace (1 - (1 - 0) ^ 4) with 0 by (cbn [pow]; lra).
    reflexivity.
Qed.

Lemma Tower_waiting_witness :
  let props := Tower.mkProps (0, -2, 0) 0.5 1 0.5 in
  let g := Tower.mkGroup 1 0.7 1 in
  Tower.sinceMount 0 500 <= Tower.delay props /\
  option_map Tower.scale_y (Tower.useFrame props 0 500 true (Some g)) = Some 0.
Proof.
  intros props g.
  assert (H : Tower.sinceMount 0 500 <= Tower.delay props)
    by (unfold Tower.sinceMount; simpl; lra).
  split; [exact H | exact (Tower_waiting props 0 500 true g H)].
Defined.

(** X14.  While a visible tower grows, its [scale.y] grows strictly: of two
    frames inside [[delay, delay + 1.5]] the later one leaves the larger
    [scale.y] in its group, whatever the groups held before. *)
Theorem Tower_growth_strict (props : Tower.Props) (startTime now1 now2 : Z)
        (g1 g2 : Tower.Group) :
  Tower.delay props <= Tower.sinceMount startTime now1 ->
  Tower.sinceMount startTime now1 < Tower.sinceMount startTime now2 ->
  Tower.sinceMount startTime now2 <= Tower.delay props + 1.5 ->
  exists g1' g2',
    Tower.useFrame props startTime now1 true (Some g1) = Some g1' /\
    Tower.useFrame props startTime now2 true (Some g2) = Some g2' /\
    Tower.scale_y g1' < Tower.scale_y g2'.
Proof.
  intros H1 H12 H2.
  eexists. eexists.
  split; [apply useFrame_growing; unfold Tower.elapsedTime; lra |].
  split; [apply useFrame_growing; unfold Tower.elapsedTime; lra |].
  cbn [Tower.set_scale_y Tower.scale_y].
  unfold Tower.elapsedTime.
  rewrite !Rmin_left by lra.
  set (e1 := Tower.sinceMount startTime now1 - Tower.delay props) in *.
  set (e2 := Tower.sinceMount startTime now2 - Tower.delay props) in *.
  assert (H : (1 - e2 / 1.5) ^ 4 < (1 - e1 / 1.5) ^ 4)
    by (apply pow4_strict; unfold e1, e2; lra).
  lra.
Qed.

Lemma Tower_growth_strict_witness :
  let props := Tower.mkProps (0, -2, 0) 0.5 1 0.5 in
  let g := Tower.mkGroup 1 0.9 1 in
  exists g1' g2',
    Tower.useFrame props 0 1000 true (Some g) = Some g1' /\
    Tower.useFrame props 0 1500 true (Some g) = Some g2' /\
    Tower.scale_y g1' < Tower.scale_y g2'.
Proof.
  intros props g.
  apply (Tower_growth_strict props 0 1000 1500 g g);
    unfold Tower.sinceMount; simpl; lra.
Defined.

(** A frame keeps no animation state: it never changes [scale.x] or
    [scale.z], the [scale.y] it writes does not depend on the scale the
    group had, and running it again at the same instant changes nothing.
    Without a group it does nothing. *)
Lemma Tower_frame_memoryless (props : Tower.Props) (startTime now : Z)
        (visible : bool) (g h : Tower.Group) :
  Tower.useFrame props startTime now visible None = None /\
  exists s,
    Tower.useFrame props startTime now visible (Some g) =
    Some (Tower.mkGroup (Tower.scale_x g) s (Tower.scale_z g)) /\
    Tower.useFrame props startTime now visible (Some h) =
    Some (Tower.mkGroup (Tower.scale_x h) s (Tower.scale_z h)) /\
    Tower.useFrame props startTime now visible
      (Tower.useFrame props startTime now visible (Some g)) =
    Tower.useFrame props startTime now visible (Some g).
Proof.
  split; [reflexivity |].
  unfold Tower.useFrame, Tower.set_scale_y.
  destruct (Rltb _ 0 || negb visible); [eexists; repeat split |].
  destruct (Rgtb _ 1.5); eexists; repeat split.
Qed.

Lemma tick_run (visible : bool) (entropy : nat -> R) (k : nat) :
  Tower.tick visible entropy k =
  (if Rltb (entropy k) 0.1 then negb visible else visible, S k).
Proof. reflexivity. Qed.

Lemma ticks_over (xs : list nat) (visible : bool) (entropy : nat -> R)
      (k : nat) :
  foldM (fun visible _ => Tower.tick visible) visible xs entropy k =
  (xorb visible (Nat.odd (Tower.flips entropy k (List.length xs))),
   (List.length xs + k)%nat).
Proof.
  revert visible k. induction xs as [| x xs IH]; intros visible k.
  - cbn. rewrite xorb_false_r. reflexivity.
  - cbn [foldM]. unfold bind. rewrite tick_run, IH.
    cbn [List.length Tower.flips]. f_equal; [| lia].
    destruct (Rltb (entropy k) 0.1).
    + change (1 + ?n)%nat with (S n). rewrite Nat.odd_succ.
      rewrite <- Nat.negb_odd.
      destruct visible, (Nat.odd (Tower.flips entropy (S k) (List.length xs)));
        reflexivity.
    + reflexivity.
Qed.

(** X15.  After [n] runs of the interval callback the tower is visible
    exactly if it was and an even number of the [n] samples drawn were below
    0.1, or it was not and that number is odd; each run draws one sample.
    If no sample is below 0.1 the flag never changes. *)
Theorem Tower_ticks_parity (n : nat) (visible : bool) (entropy : nat -> R)
        (k : nat) :
  Tower.ticks n visible entropy k =
  (xorb visible (Nat.odd (Tower.flips entropy k n)), (n + k)%nat) /\
  ((forall i, (i < n)%nat -> 0.1 <= entropy (k + i)%nat) ->
   fst (Tower.ticks n visible entropy k) = visible).
Proof.
  assert (Hrun : Tower.ticks n visible entropy k =
                 (xorb visible (Nat.odd (Tower.flips entropy k n)), (n + k)%nat)).
  { unfold Tower.ticks. rewrite ticks_over, length_seq. reflexivity. }
  split; [exact Hrun |].
  intros Hge. rewrite Hrun. cbn [fst].
  assert (H0 : Tower.flips entropy k n = 0%nat).
  { clear Hrun. revert k Hge. induction n as [| n IH]; intros k Hge.
    - reflexivity.
    - cbn [Tower.flips].
      rewrite Rltb_false
        by (specialize (Hge 0%nat); rewrite Nat.add_0_r in Hge; apply Hge; lia).
      rewrite IH; [reflexivity |].
      intros i Hi. replace (S k + i)%nat with (k + S i)%nat by lia.
      apply Hge. lia. }
  rewrite H0. cbn. apply xorb_false_r.
Qed.

Lemma Tower_ticks_parity_witness :
  let entropy := fun _ : nat => 0.5 in
  (forall i, (i < 3)%nat -> 0.1 <= entropy (0 + i)%nat) /\
  fst (Tower.ticks 3 true entropy 0%nat) = true.
Proof.
  intros entropy.
  assert (H : forall i, (i < 3)%nat -> 0.1 <= entropy (0 + i)%nat)
    by (intros i _; unfold entropy; lra).
  split; [exact H |].
  exact (proj2 (Tower_ticks_parity 3 true entropy 0%nat) H).
Defined.

(** ** [Tower]: the phases of the cubes *)

Lemma gaussianRandom_pair (mean stdev : number) (entropy : nat -> R) (k : nat) :
  gaussianRandom mean stdev entropy k =
  (fst (gaussianRandom mean stdev entropy k), (2 + k)%nat).
Proof. reflexivity. Qed.

(** The array of cubes, element by element. *)
Lemma cubeElements_pushed (props : Tower.Props) (entropy : nat -> R) (k : nat) :
  Tower.cubeElements props entropy k =
  (pushed
     (fun i k' =>
        Cube.mkProps i
          (at0 (Tower.position props),
           at1 (Tower.position props) + IZR i * 0.5,
           at2 (Tower.position props))
          0x006FEE%Z i
          (fst (gaussianRandom (Fin 0.5) (Fin 0.2) entropy k')))
     2 (Tower.range (Tower.numCubes props)) k,
   (2 * Z.to_nat (Tower.numCubes props) + k)%nat).
Proof.
  unfold Tower.cubeElements.
  rewrite (foldM_pushed
             (fun i k' =>
                Cube.mkProps i
                  (at0 (Tower.position props),
                   at1 (Tower.position props) + IZR i * 0.5,
                   at2 (Tower.position props))
                  0x006FEE%Z i
                  (fst (gaussianRandom (Fin 0.5) (Fin 0.2) entropy k')))
             2).
  - rewrite range_length. reflexivity.
  - intros acc i k'. unfold bind.
    rewrite gaussianRandom_pair. reflexivity.
Qed.

(** X16.  Every cube of a tower gets its own draw: building the cubes makes
    two calls of [Math.random] per cube, and the phase of the cube of index
    [i] is [gaussianRandom(0.5, 0.2)] on the samples [2 i] and [2 i + 1]
    counted from the first call, a finite number when the first of them lies
    in [[0, 1)]. *)
Theorem Tower_cube_phases (props : Tower.Props) (entropy : nat -> R)
        (k i : nat) (c : Cube.Props) :
  nth_error (fst (Tower.cubeElements props entropy k)) i = Some c ->
  Cube.randomValue c =
  fst (gaussianRandom (Fin 0.5) (Fin 0.2) entropy (2 * i + k)%nat) /\
  (0 <= entropy (2 * i + k)%nat < 1 -> is_finite (Cube.randomValue c) = true) /\
  snd (Tower.cubeElements props entropy k) =
  (2 * Z.to_nat (Tower.numCubes props) + k)%nat.
Proof.
  rewrite cubeElements_pushed. cbn [fst snd]. intros Hc.
  rewrite pushed_nth in Hc.
  destruct (nth_error (Tower.range (Tower.numCubes props)) i) as [j |];
    [| discriminate].
  cbn [option_map] in Hc.
  assert (Hv : Cube.randomValue c =
               fst (gaussianRandom (Fin 0.5) (Fin 0.2) entropy (2 * i + k)%nat))
    by (injection Hc as Hc; rewrite <- Hc; reflexivity).
  split; [exact Hv |].
  split; [| reflexivity].
  intros Hu. rewrite Hv, gaussianRandom_run by exact Hu. reflexivity.
Qed.

Lemma Tower_cube_phases_witness :
  let entropy := fun _ : nat => 0.25 in
  let props := Tower.mkProps (0, -2, 0) 0 0.5 0.5 in
  exists c,
    nth_error (fst (Tower.cubeElements props entropy 0%nat)) 3 = Some c /\
    Cube.randomValue c =
    fst (gaussianRandom (Fin 0.5) (Fin 0.2) entropy (2 * 3 + 0)%nat) /\
    is_finite (Cube.randomValue c) = true.
Proof.
  intros entropy props.
  assert (L4 : List.length (fst (Tower.cubeElements props entropy 0%nat))
               = 4%nat).
  { rewrite cubeElements_length.
    rewrite (numCubes_of_height props 4); [reflexivity | simpl; lra]. }
  destruct (nth_error (fst (Tower.cubeElements props entropy 0%nat)) 3)
    as [c |] eqn:E.
  - exists c. split; [reflexivity |].
    destruct (Tower_cube_phases props entropy 0%nat 3%nat c E) as (Hv & Hf & _).
    split; [exact Hv |]. apply Hf. unfold entropy. lra.
  - apply nth_error_None in E. rewrite L4 in E. lia.
Defined.

(** ** [Towers]: the grid, element by element *)

(** The array of towers: one element per cell, row by row, each made from
    four samples. *)
Lemma towers_pushed (entropy : nat -> R) (k : nat) :
  Towers.towers entropy k =
  (pushed
     (fun xz k' =>
        let x := fst xz in
        let z := snd xz in
        Towers.mkElement (x, z)
          ((INR x - INR Towers.size / 2 + 0.5) * Towers.spacing, -2,
           (INR z - INR Towers.size / 2 + 0.5) * Towers.spacing)
          ((INR x + INR z) * 0.08)
          (Math_max (Fin 0.5)
             (Fin (2.5 - 1.5 *
                   (sqrt ((INR x - (INR Towers.size / 2 - 0.5)) ^ 2
                          + (INR z - (INR Towers.size / 2 - 0.5)) ^ 2)
                    / (sqrt 2 * INR Towers.size / 2)))
              + fst (gaussianRandom (Fin 0) (Fin 0.3) entropy k'))%num)
          (fst (gaussianRandom (Fin 0.5) (Fin 0.2) entropy (2 + k')%nat)))
     4 (list_prod (seq 0 Towers.size) (seq 0 Towers.size)) k,
   (4 * (Towers.size * Towers.size) + k)%nat).
Proof.
  unfold Towers.towers. rewrite foldM_nested.
  rewrite (foldM_pushed
             (fun xz k' =>
                let x := fst xz in
                let z := snd xz in
                Towers.mkElement (x, z)
                  ((INR x - INR Towers.size / 2 + 0.5) * Towers.spacing, -2,
                   (INR z - INR Towers.size / 2 + 0.5) * Towers.spacing)
                  ((INR x + INR z) * 0.08)
                  (Math_max (Fin 0.5)
                     (Fin (2.5 - 1.5 *
                           (sqrt ((INR x - (INR Towers.size / 2 - 0.5)) ^ 2
                                  + (INR z - (INR Towers.size / 2 - 0.5)) ^ 2)
                            / (sqrt 2 * INR Towers.size / 2)))
                      + fst (gaussianRandom (Fin 0) (Fin 0.3) entropy k'))%num)
                  (fst (gaussianRandom (Fin 0.5) (Fin 0.2) entropy (2 + k')%nat)))
             4).
  - rewrite length_prod, length_seq. reflexivity.
  - intros acc [x z] k'.
    unfold Towers.cell, bind, gaussianRandom, Math_random, ret.
    reflexivity.
Qed.

Lemma INR_size : INR Towers.size = 12.
Proof. unfold Towers.size. simpl. lra. Qed.

(** The element of the cell [(x, z)]: where it is in the array and what it
    is made of. *)
Lemma towers_nth (entropy : nat -> R) (k x z : nat) :
  (x < Towers.size)%nat -> (z < Towers.size)%nat ->
  exists e,
    nth_error (fst (Towers.towers entropy k)) (x * Towers.size + z) = Some e /\
    Towers.key e = (x, z) /\
    Towers.position e = ((INR x - 5.5) * 0.8, -2, (INR z - 5.5) * 0.8) /\
    Towers.delay e = (INR x + INR z) * 0.08 /\
    Towers.height e =
    Math_max (Fin 0.5)
      (Fin (2.5 - 1.5 * (sqrt ((INR x - 5.5) ^ 2 + (INR z - 5.5) ^ 2)
                         / (sqrt 2 * 12 / 2)))
       + fst (gaussianRandom (Fin 0) (Fin 0.3) entropy
                (4 * (x * Towers.size + z) + k)%nat))%num /\
    Towers.randomValue e =
    fst (gaussianRandom (Fin 0.5) (Fin 0.2) entropy
           (2 + (4 * (x * Towers.size + z) + k))%nat).
Proof.
  intros Hx Hz. rewrite towers_pushed. cbn [fst].
  rewrite pushed_nth, (list_prod_nth _ _ x z Hx Hz). cbn [option_map fst snd].
  eexists. split; [reflexivity |].
  cbn [Towers.key Towers.position Towers.delay Towers.height
       Towers.randomValue].
  rewrite INR_size. unfold Towers.spacing.
  replace (12 / 2 - 0.5) with 5.5 by lra.
  split; [reflexivity |].
  split; [f_equal; [f_equal |]; lra |].
  repeat split.
Qed.

Lemma towers_In (entropy : nat -> R) (k : nat) (e : Towers.Element) :
  In e (fst (Towers.towers entropy k)) ->
  exists x z,
    (x < Towers.size)%nat /\ (z < Towers.size)%nat /\
    nth_error (fst (Towers.towers entropy k)) (x * Towers.size + z) = Some e.
Proof.
  intros Hin. apply In_nth_error in Hin. destruct Hin as [i Hi].
  assert (Hlt : (i < Towers.size * Towers.size)%nat).
  { assert (Hsome : nth_error (fst (Towers.towers entropy k)) i <> None)
      by (rewrite Hi; discriminate).
    apply nth_error_Some in Hsome.
    rewrite towers_pushed in Hsome. cbn [fst] in Hsome.
    rewrite pushed_length, length_prod, length_seq in Hsome. exact Hsome. }
  exists (i / Towers.size)%nat, (i mod Towers.size)%nat.
  assert (Hs : Towers.size <> 0%nat) by (unfold Towers.size; lia).
  split; [apply Nat.Div0.div_lt_upper_bound; lia |].
  split; [apply Nat.mod_upper_bound; exact Hs |].
  replace (i / Towers.size * Towers.size + i mod Towers.size)%nat with i;
    [exact Hi |].
  rewrite (Nat.div_mod_eq i Towers.size) at 1. lia.
Qed.

Lemma cell_offset_bounds (x : nat) :
  (x < Towers.size)%nat -> 0.25 <= (INR x - 5.5) ^ 2 <= 30.25.
Proof.
  unfold Towers.size. intros Hx.
  assert (H0 : 0 <= INR x) by apply pos_INR.
  assert (H11 : INR x <= 11).
  { replace 11 with (INR 11) by (simpl; lra). apply le_INR. lia. }
  assert (Hgap : INR x <= 5 \/ 6 <= INR x).
  { destruct (le_lt_dec x 5) as [Hle | Hgt].
    - left. replace 5 with (INR 5) by (simpl; lra). apply le_INR. exact Hle.
    - right. replace 6 with (INR 6) by (simpl; lra). apply le_INR. lia. }
  cbn [pow]. destruct Hgap; nra.
Qed.

(** The normalised distance from the centre of any cell of the grid. *)
Lemma normalizedDistance_bounds (x z : nat) :
  (x < Towers.size)%nat -> (z < Towers.size)%nat ->
  1 / 12 <=
  sqrt ((INR x - 5.5) ^ 2 + (INR z - 5.5) ^ 2) / (sqrt 2 * 12 / 2) <=
  11 / 12.
Proof.
  intros Hx Hz.
  pose proof (cell_offset_bounds x Hx) as Bx.
  pose proof (cell_offset_bounds z Hz) as Bz.
  set (d2 := (INR x - 5.5) ^ 2 + (INR z - 5.5) ^ 2) in *.
  assert (Hd2 : 0.5 <= d2 <= 60.5) by (unfold d2; lra).
  assert (Hs : sqrt d2 * sqrt d2 = d2) by (apply sqrt_sqrt; lra).
  assert (Ht : sqrt 2 * sqrt 2 = 2) by (apply sqrt_sqrt; lra).
  assert (Hs0 : 0 <= sqrt d2) by apply sqrt_pos.
  assert (Ht0 : 0 < sqrt 2) by (apply sqrt_lt_R0; lra).
  set (s := sqrt d2) in *. set (t := sqrt 2) in *.
  assert (Hq : s / (t * 12 / 2) * (6 * t) = s) by (field; lra).
  set (q := s / (t * 12 / 2)) in *.
  assert (Hlow : t <= 2 * s).
  { assert (H : (t - 2 * s) * (t + 2 * s) <= 0) by nra.
    destruct (Rle_or_lt t (2 * s)) as [Hle | Hgt]; [exact Hle | nra]. }
  assert (Hhigh : 2 * s <= 11 * t).
  { assert (H : (2 * s - 11 * t) * (2 * s + 11 * t) <= 0) by nra.
    destruct (Rle_or_lt (2 * s) (11 * t)) as [Hle | Hgt]; [exact Hle | nra]. }
  split; apply Rmult_le_reg_r with (6 * t); lra.
Qed.

(** X17.  The grid is laid out row by row and centred on the origin: the
    tower of the cell [(x, z)] is the element [12 x + z] of the array, with
    key [(x, z)], position [((x - 5.5) * 0.8, -2, (z - 5.5) * 0.8)] and delay
    [(x + z) * 0.08]; the tower of the opposite cell [(11 - x, 11 - z)] is at
    the opposite position. *)
Theorem Towers_layout (entropy : nat -> R) (k x z : nat) :
  (x < 12)%nat -> (z < 12)%nat ->
  exists e e',
    nth_error (fst (Towers.towers entropy k)) (12 * x + z) = Some e /\
    nth_error (fst (Towers.towers entropy k)) (12 * (11 - x) + (11 - z)) =
    Some e' /\
    Towers.key e = (x, z) /\
    Towers.position e = ((INR x - 5.5) * 0.8, -2, (INR z - 5.5) * 0.8) /\
    Towers.delay e = (INR x + INR z) * 0.08 /\
    Towers.position e' =
    (- at0 (Towers.position e), -2, - at2 (Towers.position e)).
Proof.
  intros Hx Hz.
  destruct (towers_nth entropy k x z) as (e & He & Hkey & Hpos & Hdel & _);
    [exact Hx | exact Hz |].
  destruct (towers_nth entropy k (11 - x) (11 - z))
    as (e' & He' & _ & Hpos' & _); [unfold Towers.size; lia .. |].
  exists e, e'. unfold Towers.size in He, He'.
  replace (12 * x + z)%nat with (x * 12 + z)%nat by lia.
  replace (12 * (11 - x) + (11 - z))%nat with ((11 - x) * 12 + (11 - z))%nat
    by lia.
  split; [exact He |]. split; [exact He' |].
  split; [exact Hkey |]. split; [exact Hpos |]. split; [exact Hdel |].
  rewrite Hpos', Hpos. unfold at0, at2. cbn [fst snd].
  rewrite !minus_INR by lia.
  replace (INR 11) with 11 by (simpl; lra).
  f_equal; [f_equal |]; lra.
Qed.

Lemma Towers_layout_witness :
  let entropy := fun _ : nat => 0 in
  exists e,
    nth_error (fst (Towers.towers entropy 0%nat)) (12 * 3 + 7) = Some e /\
    Towers.key e = (3%nat, 7%nat) /\
    Towers.delay e = (INR 3 + INR 7) * 0.08.
Proof.
  intros entropy.
  destruct (Towers_layout entropy 0%nat 3%nat 7%nat)
    as (e & _ & He & _ & Hkey & _ & Hdel & _); [lia | lia |].
  exists e. split; [exact He |]. split; [exact Hkey | exact Hdel].
Defined.

(** X18.  Composing the grid makes 576 calls of [Math.random], four per
    cell in the order of the array.  With [i = 12 x + z], the height of the
    tower of the cell [(x, z)] is
    [Math.max(0.5, 2.5 - 1.5 * (sqrt((x - 5.5)^2 + (z - 5.5)^2) / (sqrt(2) * 12 / 2)) + noise)]
    where the noise is [gaussianRandom(0, 0.3)] on the samples [4 i] and
    [4 i + 1], and its phase is [gaussianRandom(0.5, 0.2)] on the samples
    [4 i + 2] and [4 i + 3]. *)
Theorem Towers_samples (entropy : nat -> R) (k x z : nat) :
  (x < 12)%nat -> (z < 12)%nat ->
  snd (Towers.towers entropy k) = (576 + k)%nat /\
  exists e,
    nth_error (fst (Towers.towers entropy k)) (12 * x + z) = Some e /\
    Towers.height e =
    Math_max (Fin 0.5)
      (Fin (2.5 - 1.5 * (sqrt ((INR x - 5.5) ^ 2 + (INR z - 5.5) ^ 2)
                         / (sqrt 2 * 12 / 2)))
       + fst (gaussianRandom (Fin 0) (Fin 0.3) entropy
                (4 * (12 * x + z) + k)%nat))%num /\
    snd (gaussianRandom (Fin 0) (Fin 0.3) entropy
           (4 * (12 * x + z) + k)%nat) = (4 * (12 * x + z) + 2 + k)%nat /\
    Towers.randomValue e =
    fst (gaussianRandom (Fin 0.5) (Fin 0.2) entropy
           (4 * (12 * x + z) + 2 + k)%nat) /\
    snd (gaussianRandom (Fin 0.5) (Fin 0.2) entropy
           (4 * (12 * x + z) + 2 + k)%nat) = (4 * (12 * x + z) + 4 + k)%nat.
Proof.
  intros Hx Hz. split; [rewrite towers_pushed; reflexivity |].
  destruct (towers_nth entropy k x z) as (e & He & _ & _ & _ & Hh & Hrv);
    [exact Hx | exact Hz |].
  unfold Towers.size in He, Hh, Hrv.
  exists e.
  replace (12 * x + z)%nat with (x * 12 + z)%nat by lia.
  split; [exact He |]. split; [exact Hh |].
  split; [rewrite gaussianRandom_calls; lia |].
  split; [rewrite Hrv; do 2 f_equal; lia |].
  rewrite gaussianRandom_calls. lia.
Qed.

Lemma Towers_samples_witness :
  let entropy := fun _ : nat => 0 in
  exists e,
    nth_error (fst (Towers.towers entropy 0%nat)) (12 * 3 + 7) = Some e /\
    Towers.height e =
    Math_max (Fin 0.5)
      (Fin (2.5 - 1.5 * (sqrt ((INR 3 - 5.5) ^ 2 + (INR 7 - 5.5) ^ 2)
                         / (sqrt 2 * 12 / 2)))
       + fst (gaussianRandom (Fin 0) (Fin 0.3) entropy
                (4 * (12 * 3 + 7) + 0)%nat))%num /\
    Towers.randomValue e =
    fst (gaussianRandom (Fin 0.5) (Fin 0.2) entropy
           (4 * (12 * 3 + 7) + 2 + 0)%nat).
Proof.
  intros entropy.
  destruct (Towers_samples entropy 0%nat 3%nat 7%nat)
    as (_ & e & He & Hh & _ & Hrv & _); [lia | lia |].
  exists e. split; [exact He |]. split; [exact Hh | exact Hrv].
Defined.

(** X19.  Before the noise the height of every tower lies between 1.125
    (the corners) and 2.375 (the four cells around the centre): for the cell
    [(x, z)] it is
    [base = 2.5 - 1.5 * (sqrt((x - 5.5)^2 + (z - 5.5)^2) / (sqrt(2) * 12 / 2))].
    With [noise] the draw [gaussianRandom(0, 0.3)] of the cell, the height
    of its tower is [Math.max(0.5, base + noise)]; when the noise is a number
    [n], the floor of 0.5 does not cut if [n >= -0.625], where the height is
    [base + n], and always cuts if [n <= -1.875], where the height is 0.5. *)
Theorem Towers_base_height (entropy : nat -> R) (k x z : nat) :
  (x < 12)%nat -> (z < 12)%nat ->
  let base := 2.5 - 1.5 * (sqrt ((INR x - 5.5) ^ 2 + (INR z - 5.5) ^ 2)
                           / (sqrt 2 * 12 / 2)) in
  let noise := fst (gaussianRandom (Fin 0) (Fin 0.3) entropy
                      (4 * (12 * x + z) + k)%nat) in
  1.125 <= base <= 2.375 /\
  exists e,
    nth_error (fst (Towers.towers entropy k)) (12 * x + z) = Some e /\
    Towers.height e = Math_max (Fin 0.5) (Fin base + noise)%num /\
    forall n, noise = Fin n ->
              Towers.height e = Fin (Rmax 0.5 (base + n)) /\
              (-0.625 <= n -> Towers.height e = Fin (base + n)) /\
              (n <= -1.875 -> Towers.height e = Fin 0.5).
Proof.
  intros Hx Hz base noise.
  destruct (towers_nth entropy k x z Hx Hz) as (e & He & _ & _ & _ & Hh & _).
  pose proof (normalizedDistance_bounds x z Hx Hz) as Hnd.
  unfold Towers.size in He, Hh.
  replace (x * 12 + z)%nat with (12 * x + z)%nat in He, Hh by lia.
  fold base noise in Hh.
  assert (Hb : 1.125 <= base <= 2.375) by (unfold base; lra).
  split; [exact Hb |].
  exists e. split; [exact He |]. split; [exact Hh |].
  intros n Hnoise. rewrite Hh, Hnoise. cbn [num_add Math_max].
  split; [reflexivity |].
  split; intros Hn.
  - rewrite Rmax_right by lra. reflexivity.
  - rewrite Rmax_left by lra. reflexivity.
Qed.

Lemma Towers_base_height_witness :
  let entropy := fun _ : nat => 0 in
  let base := 2.5 - 1.5 * (sqrt ((INR 0 - 5.5) ^ 2 + (INR 0 - 5.5) ^ 2)
                           / (sqrt 2 * 12 / 2)) in
  let noise := fst (gaussianRandom (Fin 0) (Fin 0.3) entropy
                      (4 * (12 * 0 + 0) + 0)%nat) in
  1.125 <= base <= 2.375 /\
  noise = Fin 0 /\
  exists e,
    nth_error (fst (Towers.towers entropy 0%nat)) (12 * 0 + 0) = Some e /\
    Towers.height e = Math_max (Fin 0.5) (Fin base + noise)%num /\
    Towers.height e = Fin (base + 0).
Proof.
  intros entropy base noise.
  destruct (Towers_base_height entropy 0%nat 0%nat 0%nat)
    as (Hb & e & He & Hh & Hn); [lia | lia |].
  assert (Hnoise : noise = Fin 0).
  { unfold noise. rewrite gaussianRandom_run by (unfold entropy; lra).
    cbn [fst]. unfold entropy. f_equal.
    replace (1 - 0) with 1 by lra. rewrite ln_1.
    replace (-2.0 * 0) with 0 by lra. rewrite sqrt_0. lra. }
  split; [exact Hb |]. split; [exact Hnoise |].
  exists e. split; [exact He |]. split; [exact Hh |].
  apply (Hn 0 Hnoise). lra.
Defined.

Lemma useFrame_full (props : Tower.Props) (startTime now : Z)
      (g : Tower.Group) :
  1.5 <= Tower.elapsedTime props startTime now ->
  Tower.useFrame props startTime now true (Some g) =
  Some (Tower.set_scale_y g 1).
Proof.
  intros H. rewrite useFrame_visible_value by lra.
  rewrite Rmin_right by lra.
  replace (1 - (1 - 1) ^ 4) with 1 by (cbn [pow]; lra).
  reflexivity.
Qed.

(** X20.  The wave of growth ends 3.26 seconds after mount: every tower of
    the grid has a delay between 0 and 1.76 seconds, so from 3.26 seconds on
    the [scale.y] read back after a frame of a visible tower is 1, whatever
    it was before. *)
Theorem Towers_all_grown (entropy : nat -> R) (k : nat) (e : Towers.Element) :
  uniform_source entropy ->
  In e (fst (Towers.towers entropy k)) ->
  exists props,
    Towers.mount e = Some props /\
    0 <= Tower.delay props <= 1.76 /\
    forall startTime now g,
      3.26 <= Tower.sinceMount startTime now ->
      option_map Tower.scale_y
                 (Tower.useFrame props startTime now true (Some g)) = Some 1.
Proof.
  intros Hu Hin.
  pose proof (Towers_all_mount entropy k Hu) as Hall.
  rewrite Forall_forall in Hall.
  destruct (Hall e Hin) as (props & Hm & _).
  destruct (towers_In entropy k e Hin) as (x & z & Hx & Hz & He).
  destruct (towers_nth entropy k x z Hx Hz) as (e0 & He0 & _ & _ & Hd & _).
  rewrite He in He0. injection He0 as <-.
  assert (Hdelay : Tower.delay props = Towers.delay e).
  { unfold Towers.mount in Hm.
    destruct (Towers.height e); try discriminate.
    destruct (Towers.randomValue e); try discriminate.
    injection Hm as <-. reflexivity. }
  assert (Hrange : 0 <= Tower.delay props <= 1.76).
  { rewrite Hdelay, Hd. unfold Towers.size in Hx, Hz.
    assert (X0 : 0 <= INR x) by apply pos_INR.
    assert (Z0 : 0 <= INR z) by apply pos_INR.
    assert (X11 : INR x <= 11)
      by (replace 11 with (INR 11) by (simpl; lra); apply le_INR; lia).
    assert (Z11 : INR z <= 11)
      by (replace 11 with (INR 11) by (simpl; lra); apply le_INR; lia).
    lra. }
  exists props. split; [exact Hm |]. split; [exact Hrange |].
  intros startTime now g Hlate.
  rewrite useFrame_full by (unfold Tower.elapsedTime; lra).
  apply scale_y_written.
Qed.

Lemma Towers_all_grown_witness :
  let entropy := fun _ : nat => 0 in
  exists e props,
    uniform_source entropy /\
    In e (fst (Towers.towers entropy 0%nat)) /\
    Towers.mount e = Some props /\
    0 <= Tower.delay props <= 1.76 /\
    option_map Tower.scale_y
               (Tower.useFrame props 0 4000 true (Some (Tower.mkGroup 1 0 1))) =
    Some 1.
Proof.
  intros entropy.
  assert (Hu : uniform_source entropy) by (intros i; unfold entropy; lra).
  destruct (towers_nth entropy 0%nat 11%nat 11%nat) as (e & He & _);
    [unfold Towers.size; lia .. |].
  apply nth_error_In in He.
  destruct (Towers_all_grown entropy 0%nat e Hu He)
    as (props & Hm & Hd & Hgrown).
  exists e, props. split; [exact Hu |]. split; [exact He |].
  split; [exact Hm |]. split; [exact Hd |].
  apply Hgrown. unfold Tower.sinceMount. simpl. lra.
Defined.

(** ** [PS2Text]: the delayed label *)

(** Once the timer is cleared or has fired, clock events change nothing. *)
Lemma PS2Text_no_timer (evs : list PS2Text.Event) (visible mounted : bool) :
  PS2Text.stays_mounted evs ->
  PS2Text.run evs (PS2Text.mkState visible None mounted) =
  PS2Text.mkState visible None mounted.
Proof.
  unfold PS2Text.stays_mounted.
  induction evs as [| ev evs IH]; intros H; [reflexivity |].
  apply Forall_cons_iff in H. destruct H as [Hev Hevs].
  unfold PS2Text.run in *. cbn [fold_left].
  destruct ev; [| contradiction Hev; reflexivity].
  cbn [PS2Text.handle PS2Text.timer]. exact (IH Hevs).
Qed.

(** An unmounted component stays as it is, whatever happens. *)
Lemma PS2Text_unmounted (evs : list PS2Text.Event) (visible : bool) :
  PS2Text.run evs (PS2Text.mkState visible None false) =
  PS2Text.mkState visible None false.
Proof.
  induction evs as [| ev evs IH]; [reflexivity |].
  unfold PS2Text.run in *. cbn [fold_left].
  destruct ev; cbn [PS2Text.handle PS2Text.timer PS2Text.visible]; exact IH.
Qed.

Lemma PS2Text_after_unmount (evs later : list PS2Text.Event)
      (st : PS2Text.State) :
  PS2Text.render (PS2Text.run (evs ++ PS2Text.unmount :: later) st) = None.
Proof.
  unfold PS2Text.run. rewrite fold_left_app. cbn [fold_left PS2Text.handle].
  fold (PS2Text.run later (PS2Text.mkState
                             (PS2Text.visible (fold_left PS2Text.handle evs st))
                             None false)).
  rewrite PS2Text_unmounted. reflexivity.
Qed.


Lemma PS2Text_run_then (evs later : list PS2Text.Event) (ev : PS2Text.Event)
      (st : PS2Text.State) :
  PS2Text.run (evs ++ ev :: later) st =
  PS2Text.run later (PS2Text.handle (PS2Text.run evs st) ev).
Proof. unfold PS2Text.run. rewrite fold_left_app. reflexivity. Qed.

Lemma PS2Text_pending (t0 : Z) (evs : list PS2Text.Event) :
  PS2Text.stays_mounted evs ->
  PS2Text.run evs (PS2Text.mount t0) = PS2Text.mount t0 \/
  PS2Text.run evs (PS2Text.mount t0) = PS2Text.mkState true None true.
Proof.
  unfold PS2Text.stays_mounted. intros H.
  induction evs as [| ev evs IH] using rev_ind; [left; reflexivity |].
  apply Forall_app in H. destruct H as [Hevs Hev].
  apply Forall_cons_iff in Hev. destruct Hev as [Hev _].
  unfold PS2Text.run in *. rewrite fold_left_app. cbn [fold_left].
  destruct ev as [now |]; [| contradiction Hev; reflexivity].
  destruct (IH Hevs) as [-> | ->].
  - cbn [PS2Text.handle PS2Text.mount PS2Text.timer PS2Text.mounted].
    destruct (t0 + 2000 <=? now)%Z; [right | left]; reflexivity.
  - right. reflexivity.
Qed.



(** X22.  The label appears and stays while the component is mounted: with
    no unmount before or after, the first time the clock is at or past 2000
    milliseconds after mount the label [PS2] is rendered, and it is rendered
    after every later clock event; once the component is unmounted nothing
    is rendered any more. *)
Theorem PS2Text_shown (t0 now : Z) (before later after : list PS2Text.Event) :
  PS2Text.stays_mounted before ->
  (t0 + 2000 <= now)%Z ->
  PS2Text.stays_mounted later ->
  PS2Text.render
    (PS2Text.run (before ++ PS2Text.clock now :: later) (PS2Text.mount t0)) =
  Some "PS2"%string /\
  PS2Text.render
    (PS2Text.run ((before ++ PS2Text.clock now :: later)
                  ++ PS2Text.unmount :: after) (PS2Text.mount t0)) = None.
Proof.
  intros Hm Hnow Hlater.
  split; [| apply PS2Text_after_unmount].
  rewrite PS2Text_run_then.
  assert (H : PS2Text.handle (PS2Text.run before (PS2Text.mount t0))
                             (PS2Text.clock now) =
              PS2Text.mkState true None true).
  { destruct (PS2Text_pending t0 before Hm) as [-> | ->].
    - cbn [PS2Text.handle PS2Text.mount PS2Text.timer PS2Text.mounted].
      destruct (Z.leb_spec (t0 + 2000) now); [reflexivity | lia].
    - reflexivity. }
  rewrite H, PS2Text_no_timer by exact Hlater. reflexivity.
Qed.

Lemma PS2Text_shown_witness :
  let before := [PS2Text.clock 100; PS2Text.clock 1999] in
  let later := [PS2Text.clock 2032; PS2Text.clock 9000] in
  PS2Text.stays_mounted before /\
  (0 + 2000 <= 2016)%Z /\
  PS2Text.stays_mounted later /\
  PS2Text.render
    (PS2Text.run (before ++ PS2Text.clock 2016 :: later)
                 (PS2Text.mount 0)) = Some "PS2"%string /\
  PS2Text.render
    (PS2Text.run ((before ++ PS2Text.clock 2016 :: later)
                  ++ PS2Text.unmount :: [PS2Text.clock 9500])
                 (PS2Text.mount 0)) = None.
Proof.
  intros before later.
  assert (H : PS2Text.stays_mounted before)
    by (repeat constructor; discriminate).
  assert (H' : (0 + 2000 <= 2016)%Z) by lia.
  assert (H'' : PS2Text.stays_mounted later)
    by (repeat constructor; discriminate).
  split; [exact H |]. split; [exact H' |]. split; [exact H'' |].
  exact (PS2Text_shown 0 2016 before later [PS2Text.clock 9500] H H' H'').
Defined.

(** ** [App]: the listener and runs of key presses *)

Lemma addEventListener_fresh (l : nat) (w : Window) :
  ~ In l (keydown w) ->
  addEventListener l w = mkWindow (keydown w ++ [l]).
Proof.
  intros Hl. unfold addEventListener.
  destruct (existsb (Nat.eqb l) (keydown w)) eqn:E; [| reflexivity].
  apply existsb_exists in E. destruct E as (x & Hx & Heq).
  apply Nat.eqb_eq in Heq. subst x. contradiction.
Qed.

Lemma filter_out_absent (l : nat) (ls : list nat) :
  ~ In l ls -> filter (fun x => negb (Nat.eqb l x)) ls = ls.
Proof.
  induction ls as [| x ls IH]; intros Hl; [reflexivity |].
  cbn [filter]. destruct (Nat.eqb_spec l x) as [-> | Hne].
  - contradiction Hl. left. reflexivity.
  - cbn [negb]. rewrite IH; [reflexivity |].
    intros Hin. apply Hl. right. exact Hin.
Qed.

(** X23.  The effect and its cleanup are paired: running the cleanup after
    the effect leaves the listeners of [window] as they were; with the
    listener registered a key event runs [handleKeyPress] once, also after
    an effect, its cleanup and a second effect; after the cleanup of the only
    listener no key event changes anything. *)
Theorem App_listener_lifecycle (platform : App.Platform) (l l' : nat)
        (w : Window) (key : string) (s : App.State * Document) :
  ~ In l (keydown w) ->
  App.cleanup l (App.effect l w) = w /\
  let w0 := mkWindow [] in
  App.dispatchKeydown platform key (App.effect l w0) s =
  App.handleKeyPress platform key s /\
  App.dispatchKeydown platform key
    (App.effect l' (App.cleanup l (App.effect l w0))) s =
  App.handleKeyPress platform key s /\
  App.dispatchKeydown platform key (App.cleanup l (App.effect l w0)) s = s.
Proof.
  intros Hl.
  assert (Hpair : forall w, ~ In l (keydown w) ->
                            App.cleanup l (App.effect l w) = w).
  { intros [ls] Hls. unfold App.cleanup, App.effect, removeEventListener.
    rewrite addEventListener_fresh by exact Hls. cbn [keydown] in *.
    rewrite filter_app, filter_out_absent by exact Hls.
    cbn [filter]. rewrite Nat.eqb_refl. cbn [negb].
    rewrite app_nil_r. reflexivity. }
  split; [apply Hpair; exact Hl |].
  cbv zeta. rewrite (Hpair (mkWindow [])) by (cbn; tauto).
  repeat split.
Qed.

Lemma App_listener_lifecycle_witness :
  let platform :=
    App.mkPlatform (fun el doc => mkDocument (cursor doc) (Some el))
                   (fun doc => mkDocument (cursor doc) None) in
  let w := mkWindow [4; 7]%nat in
  ~ In 9%nat (keydown w) /\
  App.cleanup 9 (App.effect 9 w) = w.
Proof.
  intros platform w.
  assert (H : ~ In 9%nat (keydown w))
    by (cbn; intros [E | [E | []]]; discriminate).
  split; [exact H |].
  exact (proj1 (App_listener_lifecycle platform 9 10 w "f"
                  (App.initial, mkDocument "auto" None) H)).
Defined.

Lemma handleKeyPress_cases (platform : App.Platform) (key : string)
      (s : App.State * Document) :
  App.handleKeyPress platform key s =
  if App.isToggleKey key then App.toggleFullscreen platform s else s.
Proof. reflexivity. Qed.

Lemma toggle_flips (platform : App.Platform) (s : App.State * Document) :
  App.grants platform ->
  App.inFullscreen (snd (App.toggleFullscreen platform s)) =
  negb (App.inFullscreen (snd s)).
Proof.
  intros Hg. destruct (App.inFullscreen (snd s)) eqn:E.
  - apply (toggle_leaves platform Hg s E).
  - apply (toggle_enters platform Hg s E).
Qed.

Lemma keydowns_one_listener (platform : App.Platform) (l : nat)
      (keys : list string) (s : App.State * Document) :
  App.keydowns platform (App.effect l (mkWindow [])) keys s =
  fold_left (fun s key => App.handleKeyPress platform key s) keys s.
Proof. reflexivity. Qed.

(** X24.  With the listener registered and a browser that carries out the
    transitions, a run of key presses leaves the document in fullscreen
    exactly if the number of "f" and "F" among them is odd (starting outside
    fullscreen; even, starting inside); every other key is ignored, and once
    a toggle key was pressed the tracked flag equals the state of the
    document. *)
Theorem App_key_presses (platform : App.Platform) (l : nat)
        (keys : list string) (s : App.State * Document) :
  App.grants platform ->
  let s' := App.keydowns platform (App.effect l (mkWindow [])) keys s in
  let n := List.length (filter App.isToggleKey keys) in
  App.inFullscreen (snd s') = xorb (App.inFullscreen (snd s)) (Nat.odd n) /\
  (n = 0%nat -> s' = s) /\
  ((0 < n)%nat -> App.isFullscreen (fst s') = App.inFullscreen (snd s')).
Proof.
  intros Hg. cbv zeta. rewrite keydowns_one_listener.
  revert s. induction keys as [| key keys IH]; intros s.
  - cbn. rewrite xorb_false_r. repeat split. lia.
  - cbn [fold_left filter]. rewrite handleKeyPress_cases.
    destruct (App.isToggleKey key).
    + destruct (IH (App.toggleFullscreen platform s)) as (Hin & Hnone & Hsome).
      cbn [List.length]. split; [| split].
      * rewrite Hin, toggle_flips by exact Hg.
        rewrite Nat.odd_succ, <- Nat.negb_odd.
        destruct (App.inFullscreen (snd s)),
          (Nat.odd (List.length (filter App.isToggleKey keys))); reflexivity.
      * discriminate.
      * intros _.
        destruct (List.length (filter App.isToggleKey keys)) as [| m] eqn:E.
        -- rewrite (Hnone eq_refl). apply toggle_tracks. exact Hg.
        -- apply Hsome. lia.
    + apply IH.
Qed.

Lemma App_key_presses_witness :
  let platform :=
    App.mkPlatform (fun el doc => mkDocument (cursor doc) (Some el))
                   (fun doc => mkDocument (cursor doc) None) in
  let s := (App.initial, mkDocument "auto" None) in
  let keys := ["f"; "x"; "F"; "Escape"; "f"]%string in
  let s' := App.keydowns platform (App.effect 0 (mkWindow [])) keys s in
  App.grants platform /\
  App.inFullscreen (snd s') = true /\
  App.isFullscreen (fst s') = App.inFullscreen (snd s').
Proof.
  intros platform s keys s'.
  assert (Hg : App.grants platform) by (split; intros; reflexivity).
  destruct (App_key_presses platform 0 keys s Hg) as (Hin & _ & Htrack).
  split; [exact Hg |].
  split; [exact Hin | apply Htrack; cbn; lia].
Defined.

(** Why the cleanup matters: were two listeners registered at once,
    one press of "f" would toggle twice and, on a browser that carries out
    the transitions, leave the fullscreen state where it was. *)
Lemma App_two_listeners_cancel (platform : App.Platform) (l l' : nat)
        (s : App.State * Document) :
  App.grants platform ->
  l <> l' ->
  let w := App.effect l' (App.effect l (mkWindow [])) in
  keydown w = [l; l'] /\
  App.dispatchKeydown platform "f" w s =
  App.toggleFullscreen platform (App.toggleFullscreen platform s) /\
  App.inFullscreen (snd (App.dispatchKeydown platform "f" w s)) =
  App.inFullscreen (snd s).
Proof.
  intros Hg Hne. cbv zeta.
  assert (Hw : App.effect l' (App.effect l (mkWindow [])) = mkWindow [l; l']).
  { unfold App.effect, addEventListener. cbn [keydown existsb app].
    destruct (Nat.eqb_spec l' l) as [E | _]; [congruence | reflexivity]. }
  rewrite Hw. split; [reflexivity |].
  split; [reflexivity |].
  cbn [App.dispatchKeydown keydown fold_left].
  rewrite !handleKeyPress_cases. cbn [App.isToggleKey String.eqb].
  change (App.isToggleKey "f") with true. cbv iota.
  rewrite !toggle_flips by exact Hg. apply negb_involutive.
Qed.

Lemma App_two_listeners_cancel_witness :
  let platform :=
    App.mkPlatform (fun el doc => mkDocument (cursor doc) (Some el))
                   (fun doc => mkDocument (cursor doc) None) in
  let s := (App.initial, mkDocument "auto" None) in
  let w := App.effect 2 (App.effect 1 (mkWindow [])) in
  App.grants platform /\ 1%nat <> 2%nat /\
  App.inFullscreen (snd (App.dispatchKeydown platform "f" w s)) = false.
Proof.
  intros platform s w.
  assert (Hg : App.grants platform) by (split; intros; reflexivity).
  assert (Hne : 1%nat <> 2%nat) by discriminate.
  split; [exact Hg |]. split; [exact Hne |].
  exact (proj2 (proj2 (App_two_listeners_cancel platform 1 2 s Hg Hne))).
Defined.

(** ** The fragment shader: the glow of a hovered cube *)

Lemma fogFactor_range (dist density : R) :
  0 <= dist -> 0 < density -> 0 <= Shader.fogFactor dist density < 1.
Proof.
  intros Hd Hk. unfold Shader.fogFactor.
  pose proof (exp_pos (- dist * density)) as Hpos.
  assert (Hle : exp (- dist * density) <= 1).
  { rewrite <- exp_0. destruct (Req_dec dist 0) as [-> | Hne].
    - replace (- 0 * density) with 0 by ring. apply Rle_refl.
    - left. apply exp_increasing. nra. }
  split_cmp; lra.
Qed.

(** X25.  The colour of a fully hovered fragment ([isHovered = 1]), seen
    from a camera away from the fragment and with a unit normal, is the
    colour it would have without hovering, blended towards the fog colour
    [(1, 0.3, 0.1)] with the weight
    [fogFactor(length(vPosition), 2 + 0.5 sin(3 time)) * (0.8 + 0.2 sin(4 time))],
    which lies in [[0, 1]], plus the fog colour times the emission
    [0.4 + 0.2 sin(5 time)], between 0.2 and 0.6, plus the fog colour times
    the edge glow [(1 - dot(viewDirection, vNormal))^4], between 0 and 16,
    whose base is not negative. *)
Theorem main_hovered_glow (inp : Shader.FragmentInput)
        (out : Shader.FragmentOutput) :
  Shader.isHovered inp = 1 ->
  Shader.cameraPosition inp <> Shader.vWorldPosition inp ->
  GLSL.dot (Shader.vNormal inp) (Shader.vNormal inp) = 1 ->
  let plain :=
    GLSL.rgb (Shader.gl_FragColor
                (Shader.main
                   (Shader.mkFragmentInput
                      (Shader.color inp) (Shader.time inp) (Shader.index inp)
                      (Shader.randomValue inp) 0
                      (Shader.vUv inp) (Shader.vPosition inp)
                      (Shader.vNormal inp) (Shader.vWorldPosition inp)
                      (Shader.cameraPosition inp))
                   out)) in
  let fogColor := GLSL.mkvec3 1.0 0.3 0.1 in
  let weight :=
    Shader.fogFactor (GLSL.length (Shader.vPosition inp))
                     (2.0 + sin (Shader.time inp * 3.0) * 0.5)
    * (0.8 + 0.2 * sin (Shader.time inp * 4.0)) in
  let emission := 0.4 + 0.2 * sin (Shader.time inp * 5.0) in
  let edge :=
    1.0 - GLSL.dot (Shader.viewDirectionOf inp) (Shader.vNormal inp) in
  0 <= weight <= 1 /\
  0.2 <= emission <= 0.6 /\
  0 <= edge <= 2 /\
  0 <= edge ^ 4 <= 16 /\
  GLSL.rgb (Shader.gl_FragColor (Shader.main inp out)) =
  GLSL.vadd (GLSL.vadd (GLSL.mix3 plain fogColor weight)
                       (GLSL.scalev emission fogColor))
            (GLSL.scalev (edge ^ 4) fogColor).
Proof.
  intros Hh Hcam Hn. cbv zeta.
  set (fog := Shader.fogFactor (GLSL.length (Shader.vPosition inp))
                (2.0 + sin (Shader.time inp * 3.0) * 0.5)).
  set (pulse := 0.8 + 0.2 * sin (Shader.time inp * 4.0)).
  pose proof (SIN_bound (Shader.time inp * 3.0)) as S3.
  pose proof (SIN_bound (Shader.time inp * 4.0)) as S4.
  pose proof (SIN_bound (Shader.time inp * 5.0)) as S5.
  assert (Hfog : 0 <= fog < 1).
  { unfold fog. apply fogFactor_range; [| lra].
    unfold GLSL.length. apply sqrt_pos. }
  assert (Hd : -1 <= GLSL.dot (Shader.viewDirectionOf inp) (Shader.vNormal inp)
               <= 1).
  { apply unit_dot_bounds; [| exact Hn].
    apply normalize_unit. apply vsub_nonzero. exact Hcam. }
  split; [unfold pulse; nra |].
  split; [lra |].
  split; [lra |].
  split.
  { split; [apply pow_le; lra |].
    replace 16 with (2 ^ 4) by (cbn [pow]; lra). apply pow_incr. lra. }
  unfold Shader.main at 2. unfold Shader.viewDirectionOf at 2 3.
  cbn [Shader.color Shader.time Shader.index Shader.randomValue
       Shader.isHovered Shader.vUv Shader.vPosition Shader.vNormal
       Shader.vWorldPosition Shader.cameraPosition Shader.gl_FragColor
       GLSL.rgb].
  rewrite (Rgtb_false 0 0.0) by lra.
  fold (Shader.viewDirectionOf inp).
  unfold Shader.main, Shader.hoverGlow.
  rewrite Hh, Rgtb_true by lra.
  cbn [Shader.gl_FragColor GLSL.rgb].
  fold fog. fold pulse.
  unfold GLSL.vadd, GLSL.vscale, GLSL.scalev, GLSL.mix3, GLSL.mix.
  cbn [GLSL.vx GLSL.vy GLSL.vz].
  f_equal; ring.
Qed.

Lemma main_hovered_glow_witness :
  let inp :=
    Shader.mkFragmentInput (GLSL.mkvec3 0 0 0) 2 3 0.5 1 (GLSL.mkvec2 0 0)
      (GLSL.mkvec3 0.25 0 0) (GLSL.mkvec3 1 0 0) (GLSL.mkvec3 0 0 0)
      (GLSL.mkvec3 12 12 12) in
  let out := Shader.mkFragmentOutput (GLSL.mkvec4 (GLSL.mkvec3 0 0 0) 0) in
  let plain :=
    GLSL.rgb (Shader.gl_FragColor
                (Shader.main
                   (Shader.mkFragmentInput
                      (Shader.color inp) (Shader.time inp) (Shader.index inp)
                      (Shader.randomValue inp) 0
                      (Shader.vUv inp) (Shader.vPosition inp)
                      (Shader.vNormal inp) (Shader.vWorldPosition inp)
                      (Shader.cameraPosition inp))
                   out)) in
  let fogColor := GLSL.mkvec3 1.0 0.3 0.1 in
  let weight :=
    Shader.fogFactor (GLSL.length (Shader.vPosition inp))
                     (2.0 + sin (Shader.time inp * 3.0) * 0.5)
    * (0.8 + 0.2 * sin (Shader.time inp * 4.0)) in
  let emission := 0.4 + 0.2 * sin (Shader.time inp * 5.0) in
  let edge :=
    1.0 - GLSL.dot (Shader.viewDirectionOf inp) (Shader.vNormal inp) in
  Shader.isHovered inp = 1 /\
  Shader.cameraPosition inp <> Shader.vWorldPosition inp /\
  GLSL.dot (Shader.vNormal inp) (Shader.vNormal inp) = 1 /\
  0 <= weight <= 1 /\
  0.2 <= emission <= 0.6 /\
  0 <= edge <= 2 /\
  GLSL.rgb (Shader.gl_FragColor (Shader.main inp out)) =
  GLSL.vadd (GLSL.vadd (GLSL.mix3 plain fogColor weight)
                       (GLSL.scalev emission fogColor))
            (GLSL.scalev (edge ^ 4) fogColor).
Proof.
  intros inp out plain fogColor weight emission edge.
  assert (H1 : Shader.isHovered inp = 1) by reflexivity.
  assert (H2 : Shader.cameraPosition inp <> Shader.vWorldPosition inp)
    by (cbn; intros E; injection E as E; lra).
  assert (H3 : GLSL.dot (Shader.vNormal inp) (Shader.vNormal inp) = 1)
    by (unfold GLSL.dot; cbn; lra).
  destruct (main_hovered_glow inp out H1 H2 H3) as (Hw & He & Hg & _ & Heq).
  split; [exact H1 |]. split; [exact H2 |]. split; [exact H3 |].
  split; [exact Hw |]. split; [exact He |]. split; [exact Hg | exact Heq].
Defined.
